(** * Object-detection extension: the detection and tracking pipeline

    A shallow embedding of [detection/detect.js] and [detection/detection.js].
    JavaScript numbers are modelled as exact rationals ([Q]); module-level
    [let] variables become fields of an explicit state that every operation
    takes and returns. *)

From Stdlib Require Import ZArith QArith Qminmax Qround Qabs.
From Stdlib Require Import String Ascii List Bool Lia Lqa.
From Stdlib Require Import Decimal DecimalString DecimalZ Sorted.
Import ListNotations.

Local Open Scope Q_scope.

(** ** Adaptive scheduler (detect.js, lines 4-47) *)

Module Scheduler.

(** [let DETECTION_INTERVAL = 200], never reassigned. *)
Definition DETECTION_INTERVAL : Q := 200.
Definition MIN_INTERVAL : Q := 0.
Definition MAX_INTERVAL : Q := 500.
Definition MAX_SAMPLES : nat := 10.

(** [Math.max] and [Math.min] on numbers. *)
Definition Math_max (a b : Q) : Q := if Qle_bool a b then b else a.
Definition Math_min (a b : Q) : Q := if Qle_bool a b then a else b.

(** The comparison [a < b] on numbers. *)
Definition Qltb (a b : Q) : bool := negb (Qle_bool b a).

(** [frameTimings.reduce((sum, time) => sum + time, 0)]. *)
Definition reduce_sum (frameTimings : list Q) : Q :=
  fold_left (fun sum time => sum + time) frameTimings 0.

(** [getDetectionInterval()], reading the module variable [frameTimings]. *)
Definition getDetectionInterval (frameTimings : list Q) : Q :=
  if (5 <=? length frameTimings)%nat then
    let avgTime := reduce_sum frameTimings / inject_Z (Z.of_nat (length frameTimings)) in
    let adaptiveInterval := avgTime * (12 # 10) in
    Math_max MIN_INTERVAL (Math_min MAX_INTERVAL adaptiveInterval)
  else DETECTION_INTERVAL.

(** [recordFrameTiming(time)]: push, then shift when over capacity. *)
Definition recordFrameTiming (time : Q) (frameTimings : list Q) : list Q :=
  let pushed := frameTimings ++ [time] in
  if (MAX_SAMPLES <? length pushed)%nat then tl pushed else pushed.

(** The window after recording a sequence of durations, oldest first,
    starting from the empty window the module is loaded with. *)
Definition recordAll (durations : list Q) : list Q :=
  fold_left (fun w t => recordFrameTiming t w) durations [].

(** The words of the specification: the arithmetic mean of the stored
    samples, and clamping into an interval. *)
Definition mean (samples : list Q) : Q :=
  fold_right Qplus 0 samples / inject_Z (Z.of_nat (length samples)).

Definition clamp (lo hi x : Q) : Q :=
  if Qlt_le_dec x lo then lo else if Qlt_le_dec hi x then hi else x.

End Scheduler.

(** ** Letterbox preprocessing and the coordinate mapper
  (detect.js, lines 63-110; detection.js, lines 259-314) *)

Module Geometry.
Import Scheduler.

Definition modelWidth : Z := 640.
Definition modelHeight : Z := 640.

(** [Math.round] rounds half up; [Math.floor] is the floor. *)
Definition Math_round (x : Q) : Z := Qfloor (x + (1 # 2)).
Definition Math_floor (x : Q) : Z := Qfloor x.

(** The metadata object returned next to the input tensor. *)
Record PaddingInfo := mkPaddingInfo {
  scale : Q;
  padLeft : Z;
  padTop : Z;
  originalShape : Z * Z
}.

(** The sizes computed inside the [tf.tidy] callback of [processFrame] from
    the frame's shape [h, w]. *)
Record Letterbox := mkLetterbox {
  newWidth : Z;
  newHeight : Z;
  padBottom : Z;
  padRight : Z;
  info : PaddingInfo
}.

Definition letterbox (h w : Z) : Letterbox :=
  let scale := Math_min (inject_Z modelWidth / inject_Z w)
                        (inject_Z modelHeight / inject_Z h) in
  let newWidth := Math_round (inject_Z w * scale) in
  let newHeight := Math_round (inject_Z h * scale) in
  let padTop := Math_floor (inject_Z (modelHeight - newHeight) / 2) in
  let padLeft := Math_floor (inject_Z (modelWidth - newWidth) / 2) in
  let padBottom := (modelHeight - newHeight - padTop)%Z in
  let padRight := (modelWidth - newWidth - padLeft)%Z in
  {| newWidth := newWidth; newHeight := newHeight;
     padBottom := padBottom; padRight := padRight;
     info := {| scale := scale; padLeft := padLeft; padTop := padTop;
                originalShape := (h, w) |} |}.

Definition paddingInfo (h w : Z) : PaddingInfo := info (letterbox h w).

(** A box as the four-element array [[x1, y1, x2, y2]]. *)
Record Box := mkBox { bx1 : Q; by1 : Q; bx2 : Q; by2 : Q }.

Definition Box_eq (a b : Box) : Prop :=
  bx1 a == bx1 b /\ by1 a == by1 b /\ bx2 a == bx2 b /\ by2 a == by2 b.

(** "Remove model padding" in [updateDetectionBoxes]. *)
Definition unpad (p : PaddingInfo) (b : Box) : Box :=
  let unpadX1 := (bx1 b - inject_Z (padLeft p)) / scale p in
  let unpadY1 := (by1 b - inject_Z (padTop p)) / scale p in
  let unpadX2 := (bx2 b - inject_Z (padLeft p)) / scale p in
  let unpadY2 := (by2 b - inject_Z (padTop p)) / scale p in
  mkBox unpadX1 unpadY1 unpadX2 unpadY2.

(** The object stored in [detection.screenBox]. *)
Record ScreenBox := mkScreenBox { sx1 : Q; sy1 : Q; width : Q; height : Q }.

(** "Scale to screen dimensions" and the stored screen box. *)
Definition toScreenBox (p : PaddingInfo) (displayRatioX displayRatioY : Q)
           (b : Box) : ScreenBox :=
  let u := unpad p b in
  let displayX1 := bx1 u * displayRatioX in
  let displayY1 := by1 u * displayRatioY in
  let displayX2 := bx2 u * displayRatioX in
  let displayY2 := by2 u * displayRatioY in
  {| sx1 := displayX1; sy1 := displayY1;
     width := displayX2 - displayX1; height := displayY2 - displayY1 |}.

(** The placement the letterbox gives a point of the original frame: scaled
    by [scale], then shifted by the left and top padding. This is the box
    "built via the preprocessor's own scale and pad" of the round-trip
    property; the source has no function for it (the resize and pad act on
    pixels), so it is written from the property's words. *)
Definition toModelSpace (p : PaddingInfo) (b : Box) : Box :=
  mkBox (bx1 b * scale p + inject_Z (padLeft p))
        (by1 b * scale p + inject_Z (padTop p))
        (bx2 b * scale p + inject_Z (padLeft p))
        (by2 b * scale p + inject_Z (padTop p)).

End Geometry.

(** ** JavaScript strings and values used by the tracker and the keyword
  filter *)

Module JS.

(** Values of the expression [keyword && s.includes(k)]: the left operand
    when it is falsy (the empty string), otherwise the boolean. *)
Inductive Value : Type :=
| VString (s : string)
| VBoolean (b : bool).

(** Truthiness, as tested by [if (...)]. *)
Definition truthy (v : Value) : bool :=
  match v with
  | VString s => negb (s =? "")%string
  | VBoolean b => b
  end.

(** [a && b] with a string on the left. *)
Definition and_string (a : string) (b : Value) : Value :=
  if truthy (VString a) then b else VString a.

(** The model's strings are texts of 7-bit ASCII characters (codes below
    128), the alphabet of the class names of the data set and of the ids the
    tracker makes. What is stated about letter case is stated for such
    texts. *)
Definition ascii7 (c : ascii) : bool := (nat_of_ascii c <? 128)%nat.

Fixpoint Ascii7 (s : string) : Prop :=
  match s with
  | EmptyString => True
  | String c s' => ascii7 c = true /\ Ascii7 s'
  end.

(** [String.prototype.toLowerCase] on an ASCII text: the letters A-Z become
    a-z, every other character stays as it is. *)
Definition lower_ascii (c : ascii) : ascii :=
  let n := nat_of_ascii c in
  if ((65 <=? n) && (n <=? 90))%nat then ascii_of_nat (n + 32) else c.

Fixpoint toLowerCase (s : string) : string :=
  match s with
  | EmptyString => EmptyString
  | String c s' => String (lower_ascii c) (toLowerCase s')
  end.

(** [s.startsWith(k)], the test [includes] makes at every position. *)
Fixpoint startsWith (s k : string) {struct k} : bool :=
  match k, s with
  | EmptyString, _ => true
  | String _ _, EmptyString => false
  | String a k', String b s' => Ascii.eqb a b && startsWith s' k'
  end.

(** [s.includes(k)]: [k] occurs in [s] at some position. *)
Fixpoint includes (s k : string) : bool :=
  startsWith s k ||
  match s with
  | EmptyString => false
  | String _ s' => includes s' k
  end.

(** Number-to-string conversion of an integer, as in a template literal. *)
Definition String_of_Z (z : Z) : string :=
  DecimalString.NilZero.string_of_int (Z.to_int z).

(** [s] contains [k] as a substring, declaratively. *)
Definition Substring (k s : string) : Prop :=
  exists pre post : string, s = (pre ++ k ++ post)%string.

(** *** Letter case, stated without the conversion

    The two alphabets, letter by letter; two characters are the same letter
    when they are equal or an upper-case letter and its lower-case form; two
    texts are the same up to case when they have the same letters in the
    same places. *)
Definition upperCaseLetters : string := "ABCDEFGHIJKLMNOPQRSTUVWXYZ"%string.
Definition lowerCaseLetters : string := "abcdefghijklmnopqrstuvwxyz"%string.

Definition casePairs : list (ascii * ascii) :=
  combine (list_ascii_of_string upperCaseLetters)
          (list_ascii_of_string lowerCaseLetters).

Definition SameLetter (a b : ascii) : Prop :=
  a = b \/ In (a, b) casePairs \/ In (b, a) casePairs.

Fixpoint SameLetters (s t : string) : Prop :=
  match s, t with
  | EmptyString, EmptyString => True
  | String a s', String b t' => SameLetter a b /\ SameLetters s' t'
  | _, _ => False
  end.

(** [s] contains, somewhere, a text that is [k] up to letter case. *)
Definition SubstringIgnoringCase (k s : string) : Prop :=
  exists pre mid post : string,
    s = (pre ++ mid ++ post)%string /\ SameLetters mid k.

End JS.

(** ** Object tracker (detect.js, lines 224-262; detection.js, lines 249-384) *)

Module Tracker.
Import Scheduler Geometry JS.

(** A detection object: [processFrame] creates it with [box], [score],
    [class] and [className]; [updateDetectionBoxes] later assigns [id],
    [screenBox] and [isKeywordMatch] ([None] is an absent property). *)
Record Detection := mkDetection {
  box : Box;
  score : Q;
  class : Z;
  className : string;
  id : option string;
  screenBox : option ScreenBox;
  isKeywordMatch : option Value
}.

(** The object literal pushed onto [processedDetections]. *)
Definition newDetection (b : Box) (sc : Q) (classId : Z) (name : string) : Detection :=
  {| box := b; score := sc; class := classId; className := name;
     id := None; screenBox := None; isKeywordMatch := None |}.

(** An entry of [previousDetections]: [{ id, class, box }]. *)
Record TrackRecord := mkTrackRecord {
  prev_id : string;
  prev_class : Z;
  prev_box : Box
}.

Definition matchThreshold : Q := 15 # 100.

(** The test of the position-and-class scan for one previous record. *)
Definition similar (detection : Detection) (prev : TrackRecord) : bool :=
  (prev_class prev =? class detection)%Z &&
  (let dx := Qabs (bx1 (box detection) - bx1 (prev_box prev)) in
   let dy := Qabs (by1 (box detection) - by1 (prev_box prev)) in
   Qltb dx matchThreshold && Qltb dy matchThreshold).

(** [findMatchingDetection(detection, previousDetections)]; [None] is
    [null]. The function assigns to no property of its parameters, so it is
    a function of their values. *)
Definition findMatchingDetection (detection : Detection)
           (previousDetections : list TrackRecord) : option TrackRecord :=
  match previousDetections with
  | [] => None
  | _ =>
    let exactMatch :=
      match id detection with
      | Some i =>
          if truthy (VString i)
          then find (fun p => (prev_id p =? i)%string) previousDetections
          else None
      | None => None
      end in
    match exactMatch with
    | Some p => Some p
    | None => find (similar detection) previousDetections
    end
  end.

(** What a call of [updateDetectionBoxes] reads besides its arguments and
    [previousDetections]: the keyword, the display ratios of the video
    element (computed once, before the loop) and the clock. [Date.now()] is
    evaluated inside the first loop, anew for every detection without a
    match: [Date_now i] is the clock's reading during iteration [i] of that
    loop (counted from 0), and readings of different iterations may
    differ. *)
Record Display := mkDisplay {
  keyword : string;
  displayRatioX : Q;
  displayRatioY : Q;
  Date_now : nat -> Z
}.

(** A clock that shows [t] in the first iteration and one millisecond more
    in each following one. *)
Definition clockFrom (t : Z) : nat -> Z := fun i => (t + Z.of_nat i)%Z.

(** The template literal that makes up a fresh id; [now] is the value of
    [Date.now()] at that point. *)
Definition freshId (now : Z) (detection : Detection) : string :=
  (String_of_Z (class detection) ++ "_" ++
   String_of_Z (Math_round (bx1 (box detection) * 100)) ++ "_" ++
   String_of_Z (Math_round (by1 (box detection) * 100)) ++ "_" ++
   String_of_Z (now mod 1000))%string.

(** The keyword test stored in [detection.isKeywordMatch]. *)
Definition keywordMatch (keyword name : string) : Value :=
  and_string keyword
    (VBoolean (includes (toLowerCase name) (toLowerCase keyword))).

(** State of the first [for] loop of [updateDetectionBoxes]. The detection
    objects are mutated in place; [tracked] holds those already visited. *)
Record LoopState := mkLoopState {
  loop_previous : list TrackRecord;
  processedIds : list string;
  keywordMatchCount : nat;
  tracked : list Detection
}.

(** One iteration of that loop; its number is the number of detections
    already visited. *)
Definition trackOne (e : Display) (p : PaddingInfo)
           (st : LoopState) (detection : Detection) : LoopState :=
  let iteration := List.length (tracked st) in
  let matchingDetection := findMatchingDetection detection (loop_previous st) in
  let newId :=
    match matchingDetection with
    | Some m => prev_id m
    | None => freshId (Date_now e iteration) detection
    end in
  let sb := toScreenBox p (displayRatioX e) (displayRatioY e) (box detection) in
  let isMatch := keywordMatch (keyword e) (className detection) in
  {| loop_previous := loop_previous st;
     processedIds := processedIds st ++ [newId];
     keywordMatchCount :=
       if truthy isMatch then S (keywordMatchCount st) else keywordMatchCount st;
     tracked := tracked st ++
       [{| box := box detection; score := score detection;
           class := class detection; className := className detection;
           id := Some newId; screenBox := Some sb;
           isKeywordMatch := Some isMatch |}] |}.

(** [det.id || ''], [det.class || 0] and [det.box || [0, 0, 0, 0]]. *)
Definition snapshot (det : Detection) : TrackRecord :=
  {| prev_id := match id det with
                | Some i => if truthy (VString i) then i else ""%string
                | None => ""%string
                end;
     prev_class := if (class det =? 0)%Z then 0%Z else class det;
     prev_box := box det |}.

(** The emitted detection set: the statistics handed to the display and the
    detections with their ids. *)
Record DetectionSet := mkDetectionSet {
  detections : list Detection;
  totalCount : nat;
  matchCount : nat
}.

(** [updateDetectionBoxes(detections, paddingInfo)] on the page of
    detection.html, where the element [boxes] exists: the emitted set and
    the new value of [previousDetections]. The DOM loops that create, update
    and remove box elements do not touch either. *)
Definition updateDetectionBoxes (e : Display) (dets : list Detection)
           (p : PaddingInfo) (previousDetections : list TrackRecord)
  : DetectionSet * list TrackRecord :=
  let st := fold_left (trackOne e p) dets
              (mkLoopState previousDetections [] 0 []) in
  ({| detections := tracked st;
      totalCount := List.length dets;
      matchCount := keywordMatchCount st |},
   map snapshot (tracked st)).

(** The tracker states a session can be in: empty at start, then whatever a
    cycle leaves, each cycle receiving detections fresh from
    [processFrame]. *)
Inductive Reachable : list TrackRecord -> Prop :=
| Reachable_start : Reachable []
| Reachable_cycle (e : Display) (p : PaddingInfo)
    (raw : list (Box * Q * Z * string)) (prev : list TrackRecord) :
    Reachable prev ->
    Reachable (snd (updateDetectionBoxes e
                      (map (fun '(b, s, c, n) => newDetection b s c n) raw)
                      p prev)).

(** *** Auxiliary notions for the proofs about ids and the loop *)

(** The separator of the id template does not occur in [s]. *)
Fixpoint NoSep (s : string) : Prop :=
  match s with
  | EmptyString => True
  | String c s' => c <> "_"%char /\ NoSep s'
  end.

(** An id whose text begins with the number [c] and the separator. *)
Definition HasClassPrefix (c : Z) (i : string) : Prop :=
  exists rest, i = (String_of_Z c ++ "_" ++ rest)%string.

(** Every record a session can hold carries an id that starts with the
    record's class number and the separator. *)
Definition WellFormed (prev : list TrackRecord) : Prop :=
  Forall (fun r => HasClassPrefix (prev_class r) (prev_id r)) prev.

(** The id that iteration [i] assigns, given the previous records it
    sees, and the detection as that iteration leaves it. *)
Definition assignedId (e : Display) (prev : list TrackRecord)
           (i : nat) (d : Detection) : string :=
  match findMatchingDetection d prev with
  | Some m => prev_id m
  | None => freshId (Date_now e i) d
  end.

Definition assign (e : Display) (p : PaddingInfo) (prev : list TrackRecord)
           (i : nat) (d : Detection) : Detection :=
  {| box := box d; score := score d; class := class d; className := className d;
     id := Some (assignedId e prev i d);
     screenBox := Some (toScreenBox p (displayRatioX e) (displayRatioY e) (box d));
     isKeywordMatch := Some (keywordMatch (keyword e) (className d)) |}.

(** [f] applied to the elements of a list together with their positions,
    the first position being [i]. *)
Fixpoint mapi_from {A B : Type} (f : nat -> A -> B) (i : nat) (l : list A) : list B :=
  match l with
  | [] => []
  | x :: l' => f i x :: mapi_from f (S i) l'
  end.

Definition mapi {A B : Type} (f : nat -> A -> B) (l : list A) : list B :=
  mapi_from f 0 l.

End Tracker.

(** ** Decoding and suppression inside [processFrame]
  (detect.js, lines 54-216) *)

Module Detector.
Import Scheduler Geometry JS Tracker.

(** A box in the form handed to the suppressor: [[y1, x1, y2, x2]]. *)
Record NmsBox := mkNmsBox { ny1 : Q; nx1 : Q; ny2 : Q; nx2 : Q }.

(** One row of the transposed model output: centre, size and the scores of
    the classes. *)
Record Anchor := mkAnchor {
  cx : Q; cy : Q; aw : Q; ah : Q;
  classScores : list Q
}.

(** "Calculate box coordinates from center, width, height" and
    "Construct boxes in [y1, x1, y2, x2] format". *)
Definition boxOf (a : Anchor) : NmsBox :=
  let x1 := cx a - aw a / 2 in
  let y1 := cy a - ah a / 2 in
  mkNmsBox y1 x1 (y1 + ah a) (x1 + aw a).

(** [rawScores.max(1)] and [rawScores.argMax(1)] for one row; the first
    index wins among equal maxima. *)
Definition maxScore (scores : list Q) : Q :=
  match scores with
  | [] => 0
  | s :: rest => fold_left Math_max rest s
  end.

Fixpoint argMax_from (i best : nat) (bestScore : Q) (scores : list Q) : nat :=
  match scores with
  | [] => best
  | s :: rest =>
      if Qltb bestScore s then argMax_from (S i) i s rest
      else argMax_from (S i) best bestScore rest
  end.

Definition argMax (scores : list Q) : nat :=
  match scores with
  | [] => 0%nat
  | s :: rest => argMax_from 1 0 s rest
  end.

(** *** The suppression operation of the library

    Area of a box given by two opposite corners, and intersection over union
    of two boxes (0 when one of them is empty). *)
Definition area (b : NmsBox) : Q :=
  (Math_max (ny1 b) (ny2 b) - Math_min (ny1 b) (ny2 b)) *
  (Math_max (nx1 b) (nx2 b) - Math_min (nx1 b) (nx2 b)).

Definition intersectionOverUnion (a b : NmsBox) : Q :=
  let areaA := area a in
  let areaB := area b in
  if Qle_bool areaA 0 || Qle_bool areaB 0 then 0
  else
    let iymin := Math_max (Math_min (ny1 a) (ny2 a)) (Math_min (ny1 b) (ny2 b)) in
    let ixmin := Math_max (Math_min (nx1 a) (nx2 a)) (Math_min (nx1 b) (nx2 b)) in
    let iymax := Math_min (Math_max (ny1 a) (ny2 a)) (Math_max (ny1 b) (ny2 b)) in
    let ixmax := Math_min (Math_max (nx1 a) (nx2 a)) (Math_max (nx1 b) (nx2 b)) in
    let inter := Math_max (iymax - iymin) 0 * Math_max (ixmax - ixmin) 0 in
    inter / (areaA + areaB - inter).

(** Insertion that keeps the list in descending score order and puts the
    new entry after the entries of equal score. *)
Fixpoint insertByScore (c : Q * nat) (l : list (Q * nat)) : list (Q * nat) :=
  match l with
  | [] => [c]
  | d :: l' => if Qltb (fst d) (fst c) then c :: l else d :: insertByScore c l'
  end.

(** Stable sort of (score, index) pairs by descending score. *)
Definition sortByScore (l : list (Q * nat)) : list (Q * nat) :=
  fold_left (fun acc c => insertByScore c acc) l [].

(** The scores paired with their indices. *)
Definition indexed (scores : list Q) : list (Q * nat) :=
  combine scores (seq 0 (List.length scores)).

Definition defaultBox : NmsBox := mkNmsBox 0 0 0 0.

(** The greedy pass over the sorted candidates: stop when [maxOutputSize]
    boxes are selected; skip a candidate that overlaps a selected box with
    IoU at least [iouThreshold]; select it otherwise. *)
Fixpoint select (boxes : list NmsBox) (maxOutputSize : nat) (iouThreshold : Q)
         (candidates : list (Q * nat)) (selected : list nat) : list nat :=
  match candidates with
  | [] => selected
  | c :: rest =>
      if (List.length selected <? maxOutputSize)%nat then
        if existsb (fun j => Qle_bool iouThreshold
                      (intersectionOverUnion (nth (snd c) boxes defaultBox)
                                             (nth j boxes defaultBox)))
                   selected
        then select boxes maxOutputSize iouThreshold rest selected
        else select boxes maxOutputSize iouThreshold rest (selected ++ [snd c])
      else selected
  end.

(** Modelled from the spec: [tf.image.nonMaxSuppressionAsync] is an
    operation of the TensorFlow.js library, which is not part of the
    repository. The greedy algorithm is that of section 4.3; the parameter
    list is the library's,
    [(boxes, scores, maxOutputSize, iouThreshold, scoreThreshold)], and so
    are the two comparisons: a box is a candidate when its score is above
    [scoreThreshold], and it is suppressed by a selected box when their IoU
    is at least [iouThreshold]. The result is the list of selected
    indices. *)
Definition nonMaxSuppression (boxes : list NmsBox) (scores : list Q)
           (maxOutputSize : nat) (iouThreshold scoreThreshold : Q) : list nat :=
  let candidates :=
    sortByScore (filter (fun c => Qltb scoreThreshold (fst c)) (indexed scores)) in
  select boxes maxOutputSize iouThreshold candidates [].

(** The two constants declared before the call, with their comments. *)
Definition confidenceThreshold : Q := 4 # 10.   (* Minimum confidence score *)
Definition iouThreshold : Q := 45 # 100.        (* Intersection over Union threshold *)

(** The call in [processFrame], arguments in the order written there:
    [nonMaxSuppressionAsync(boxes, scores, 100, confidenceThreshold, iouThreshold)]. *)
Definition nms (boxes : list NmsBox) (scores : list Q) : list nat :=
  nonMaxSuppression boxes scores 100 confidenceThreshold iouThreshold.

(** A candidate of the suppressor: box, score and class. *)
Record Candidate := mkCandidate {
  cand_box : NmsBox;
  cand_score : Q;
  cand_class : nat
}.

(** The candidate standing for an index outside the list. *)
Definition defaultCandidate : Candidate := mkCandidate defaultBox 0 0.

(** Indices and (score, index) pairs read as candidates of a list, and the
    pairs and indices that are in range and carry the score of their
    candidate. *)
Definition candAt (cands : list Candidate) (i : nat) : Candidate :=
  nth i cands defaultCandidate.

Definition ofPair (cands : list Candidate) (p : Q * nat) : Candidate :=
  candAt cands (snd p).

Definition validPair (cands : list Candidate) (p : Q * nat) : Prop :=
  (snd p < List.length cands)%nat /\ fst p = cand_score (candAt cands (snd p)).

Definition validIndex (cands : list Candidate) (i : nat) : Prop :=
  (i < List.length cands)%nat.

(** [t.gather(nms, 0)]. *)
Definition gather {A : Type} (l : list A) (indices : list nat) : list A :=
  flat_map (fun i => match nth_error l i with Some x => [x] | None => [] end) indices.

(** The suppressor as [processFrame] runs it on decoded candidates: the
    kept candidates in keep order. *)
Definition suppress (cands : list Candidate) : list Candidate :=
  gather cands (nms (map cand_box cands) (map cand_score cands)).

(** The reference suppressor, following the words of section 4.3: discard
    scores below the confidence threshold, sort by score descending with
    stable ties, keep a candidate when its IoU with every kept candidate is
    below the IoU threshold, stop at the maximum number of detections. *)
Fixpoint insertCandidate (c : Candidate) (l : list Candidate) : list Candidate :=
  match l with
  | [] => [c]
  | d :: l' =>
      if Qltb (cand_score d) (cand_score c) then c :: l
      else d :: insertCandidate c l'
  end.

Definition stableSortDescending (l : list Candidate) : list Candidate :=
  fold_left (fun acc c => insertCandidate c acc) l [].

Fixpoint greedyKeep (maxDetections : nat) (iouLimit : Q)
         (sorted kept : list Candidate) : list Candidate :=
  match sorted with
  | [] => kept
  | c :: rest =>
      if (maxDetections <=? List.length kept)%nat then kept
      else if forallb (fun k => Qltb (intersectionOverUnion (cand_box c) (cand_box k))
                                     iouLimit) kept
           then greedyKeep maxDetections iouLimit rest (kept ++ [c])
           else greedyKeep maxDetections iouLimit rest kept
  end.

Definition referenceSuppress (cands : list Candidate) : list Candidate :=
  greedyKeep 100 (45 # 100)
    (stableSortDescending
       (filter (fun c => Qle_bool (4 # 10) (cand_score c)) cands))
    [].

(** Outcome of a call that may throw. *)
Inductive Completion (A : Type) : Type :=
| Returns (a : A)
| Throws (message : string).
Arguments Returns {A} a.
Arguments Throws {A} message.

(** What one call of [processFrame] meets: whether the model is loaded, the
    class-name table, the video element with the outcome of reading its
    pixels (the frame's shape [h, w]), and the outcome of [model.execute].
    An output tensor the transpose and slice operations reject is [None]. *)
Record FrameEnv := mkFrameEnv {
  modelLoaded : bool;
  classNames : nat -> option string;
  videoElement : option (Completion (Z * Z));
  execute : Completion (option (list Anchor))
}.

(** [classNames[classId] || `Unknown (${classId})`]. *)
Definition classNameOf (names : nat -> option string) (classId : nat) : string :=
  let unknown := ("Unknown (" ++ String_of_Z (Z.of_nat classId) ++ ")")%string in
  match names classId with
  | Some n => if truthy (VString n) then n else unknown
  | None => unknown
  end.

(** The candidates decoded from the anchors: box, greatest class score and
    its class. *)
Definition decode (anchors : list Anchor) : list Candidate :=
  map (fun a => mkCandidate (boxOf a) (maxScore (classScores a))
                            (argMax (classScores a))) anchors.

(** The object pushed onto [processedDetections] for a kept candidate, the
    box in [[x1, y1, x2, y2]] order. *)
Definition format (names : nat -> option string) (c : Candidate) : Detection :=
  newDetection
    (mkBox (nx1 (cand_box c)) (ny1 (cand_box c))
           (nx2 (cand_box c)) (ny2 (cand_box c)))
    (cand_score c)
    (Z.of_nat (cand_class c))
    (classNameOf names (cand_class c)).

(** Rank of the tensor of boxes after [.squeeze()], which is called without
    an axis and so removes every dimension of size 1 from the shape
    [[1, n, 4]]: with one anchor nothing but [[4]] is left. *)
Definition squeezedRank (anchors : list Anchor) : nat :=
  match anchors with
  | [_] => 1
  | _ => 2
  end.

(** The inner [try] block: decode, suppress, gather and format. The
    suppression operation accepts boxes of rank 2 only and throws on any
    other, which is what happens to the output for a single anchor. *)
Definition postprocess (names : nat -> option string)
           (outputs : option (list Anchor)) : Completion (list Detection) :=
  match outputs with
  | None => Throws "Error processing model output"
  | Some anchors =>
      if negb (squeezedRank anchors =? 2)%nat
      then Throws "boxes must be 2D"
      else Returns (map (format names) (suppress (decode anchors)))
  end.

(** [processFrame(videoElement)]. An error of the inner block is caught and
    logged there; any other error leaves through the outer [catch], which
    throws it again. *)
Definition processFrame (env : FrameEnv)
  : Completion (list Detection * PaddingInfo) :=
  if negb (modelLoaded env) then Throws "Model or video not available"
  else
    match videoElement env with
    | None => Throws "Model or video not available"
    | Some pixels =>
        match pixels with
        | Throws err => Throws err
        | Returns (h, w) =>
            let paddingInfo := paddingInfo h w in
            match execute env with
            | Throws err => Throws err
            | Returns outputs =>
                let processedDetections :=
                  match postprocess (classNames env) outputs with
                  | Returns ds => ds
                  | Throws _ => []
                  end in
                Returns (processedDetections, paddingInfo)
            end
        end
    end.

End Detector.

(** ** The detection page as a state machine (detection.js) *)

Module Pipeline.
Import Scheduler Geometry Detector.

(** The module variables of detection.js and of detect.js that steer the
    loop, and two counters for the browser's side of it: the
    [requestAnimationFrame] callbacks that are queued, and the activations
    of [detectionLoop] that are suspended at [await processFrame(...)]. *)
Record State := mkState {
  keyword : string;
  isDetectionRunning : bool;
  lastDetectionTime : Q;
  previousDetections : list Tracker.TrackRecord;
  wasRunningBeforeHidden : bool;
  frameTimings : list Q;
  errorMessage : option string;
  emitted : list Tracker.DetectionSet;
  animationFrames : nat;
  inFlight : nat
}.

(** The page after loading, with the keyword read from storage. *)
Definition initial (kw : string) : State :=
  {| keyword := JS.toLowerCase kw; isDetectionRunning := false;
     lastDetectionTime := 0; previousDetections := [];
     wasRunningBeforeHidden := false; frameTimings := [];
     errorMessage := None; emitted := [];
     animationFrames := 0; inFlight := 0 |}.

Definition set_running (b : bool) (s : State) : State :=
  {| keyword := keyword s; isDetectionRunning := b;
     lastDetectionTime := lastDetectionTime s;
     previousDetections := previousDetections s;
     wasRunningBeforeHidden := wasRunningBeforeHidden s;
     frameTimings := frameTimings s; errorMessage := errorMessage s;
     emitted := emitted s;
     animationFrames := animationFrames s; inFlight := inFlight s |}.

Definition set_lastDetectionTime (t : Q) (s : State) : State :=
  {| keyword := keyword s; isDetectionRunning := isDetectionRunning s;
     lastDetectionTime := t;
     previousDetections := previousDetections s;
     wasRunningBeforeHidden := wasRunningBeforeHidden s;
     frameTimings := frameTimings s; errorMessage := errorMessage s;
     emitted := emitted s;
     animationFrames := animationFrames s; inFlight := inFlight s |}.

Definition set_previousDetections (p : list Tracker.TrackRecord) (s : State) : State :=
  {| keyword := keyword s; isDetectionRunning := isDetectionRunning s;
     lastDetectionTime := lastDetectionTime s;
     previousDetections := p;
     wasRunningBeforeHidden := wasRunningBeforeHidden s;
     frameTimings := frameTimings s; errorMessage := errorMessage s;
     emitted := emitted s;
     animationFrames := animationFrames s; inFlight := inFlight s |}.

Definition set_wasRunningBeforeHidden (b : bool) (s : State) : State :=
  {| keyword := keyword s; isDetectionRunning := isDetectionRunning s;
     lastDetectionTime := lastDetectionTime s;
     previousDetections := previousDetections s;
     wasRunningBeforeHidden := b;
     frameTimings := frameTimings s; errorMessage := errorMessage s;
     emitted := emitted s;
     animationFrames := animationFrames s; inFlight := inFlight s |}.

Definition set_errorMessage (m : option string) (s : State) : State :=
  {| keyword := keyword s; isDetectionRunning := isDetectionRunning s;
     lastDetectionTime := lastDetectionTime s;
     previousDetections := previousDetections s;
     wasRunningBeforeHidden := wasRunningBeforeHidden s;
     frameTimings := frameTimings s; errorMessage := m;
     emitted := emitted s;
     animationFrames := animationFrames s; inFlight := inFlight s |}.

Definition emit (d : Tracker.DetectionSet) (s : State) : State :=
  {| keyword := keyword s; isDetectionRunning := isDetectionRunning s;
     lastDetectionTime := lastDetectionTime s;
     previousDetections := previousDetections s;
     wasRunningBeforeHidden := wasRunningBeforeHidden s;
     frameTimings := frameTimings s; errorMessage := errorMessage s;
     emitted := emitted s ++ [d];
     animationFrames := animationFrames s; inFlight := inFlight s |}.

(** [requestAnimationFrame(detectionLoop)]. *)
Definition requestAnimationFrame (s : State) : State :=
  {| keyword := keyword s; isDetectionRunning := isDetectionRunning s;
     lastDetectionTime := lastDetectionTime s;
     previousDetections := previousDetections s;
     wasRunningBeforeHidden := wasRunningBeforeHidden s;
     frameTimings := frameTimings s; errorMessage := errorMessage s;
     emitted := emitted s;
     animationFrames := S (animationFrames s); inFlight := inFlight s |}.

Definition set_counters (frames flights : nat) (s : State) : State :=
  {| keyword := keyword s; isDetectionRunning := isDetectionRunning s;
     lastDetectionTime := lastDetectionTime s;
     previousDetections := previousDetections s;
     wasRunningBeforeHidden := wasRunningBeforeHidden s;
     frameTimings := frameTimings s; errorMessage := errorMessage s;
     emitted := emitted s;
     animationFrames := frames; inFlight := flights |}.

(** [detectionLoop] suspends at [await processFrame(videoElement)]. *)
Definition awaitProcessFrame (s : State) : State :=
  set_counters (animationFrames s) (S (inFlight s)) s.

(** [startDetection()]: [modelReady] is [getModel()] being set,
    [videoReady] the video element having non-zero dimensions. *)
Definition startDetection (modelReady videoReady : bool) (s : State) : State :=
  if negb modelReady
  then set_errorMessage (Some "Model not loaded yet. Please wait."%string) s
  else if negb videoReady
  then set_errorMessage
         (Some "Screen sharing not properly started or video not available."%string) s
  else
    requestAnimationFrame
      (set_lastDetectionTime 0
         (set_running true
            (set_previousDetections [] (set_errorMessage None s)))).

(** [stopDetection()]. Its other statements act on the DOM, the statistics
    display, the table of box elements and the TensorFlow variables, which
    the state does not hold; none of them writes [frameTimings], which is
    private to detect.js. *)
Definition stopDetection (s : State) : State :=
  set_previousDetections [] (set_running false s).

(** The [visibilitychange] handler; [hidden] is [document.hidden]. *)
Definition visibilitychange (hidden : bool) (s : State) : State :=
  if hidden
  then set_running false (set_wasRunningBeforeHidden (isDetectionRunning s) s)
  else if wasRunningBeforeHidden s
  then requestAnimationFrame (set_lastDetectionTime 0 (set_running true s))
  else s.

(** The throttling test of [detectionLoop]. *)
Definition throttled (timestamp : Q) (s : State) : bool :=
  Qltb (timestamp - lastDetectionTime s)
               (getDetectionInterval (frameTimings s)).

(** [detectionLoop(timestamp)] up to its [await]. *)
Definition detectionLoop (timestamp : Q) (s : State) : State :=
  if negb (isDetectionRunning s) then s
  else
    let s1 := requestAnimationFrame s in
    if throttled timestamp s1 then s1
    else awaitProcessFrame (set_lastDetectionTime timestamp s1).

(** [detectionLoop] after its [await]: the outcome of [processFrame] is
    either passed to [updateDetectionBoxes] or, when it is an error, handled
    by the [catch] block. [ratioX] and [ratioY] are the display ratios at
    that moment, [now] the readings of the clock during the tracking loop.
    The inference counter shown as "model FPS" is left out. *)
Definition resumeDetectionLoop
           (outcome : Completion (list Tracker.Detection * PaddingInfo))
           (ratioX ratioY : Q) (now : nat -> Z) (s : State) : State :=
  match outcome with
  | Returns (processedDetections, paddingInfo) =>
      let '(set, prev) :=
        Tracker.updateDetectionBoxes
          (Tracker.mkDisplay (keyword s) ratioX ratioY now)
          processedDetections paddingInfo (previousDetections s) in
      emit set (set_previousDetections prev s)
  | Throws message =>
      set_errorMessage (Some ("Detection error: " ++ message)%string)
                       (set_running false s)
  end.

(** What can happen to the page. *)
Inductive Event : Type :=
| Start (modelReady videoReady : bool)
| Stop
| VisibilityChange (hidden : bool)
| AnimationFrame (timestamp : Q)
| Settle (env : FrameEnv) (ratioX ratioY : Q) (now : nat -> Z).

(** One event. An animation frame runs one queued callback; a settlement
    resumes one suspended activation of [detectionLoop]. *)
Definition step (s : State) (ev : Event) : State :=
  match ev with
  | Start modelReady videoReady => startDetection modelReady videoReady s
  | Stop => stopDetection s
  | VisibilityChange hidden => visibilitychange hidden s
  | AnimationFrame timestamp =>
      match animationFrames s with
      | O => s
      | S n => detectionLoop timestamp (set_counters n (inFlight s) s)
      end
  | Settle env ratioX ratioY now =>
      match inFlight s with
      | O => s
      | S n =>
          resumeDetectionLoop (processFrame env) ratioX ratioY now
                              (set_counters (animationFrames s) n s)
      end
  end.

Definition run (s : State) (trace : list Event) : State :=
  fold_left step trace s.

(** A cycle has been started by [detectionLoop timestamp] in state [s]. *)
Definition startsCycle (timestamp : Q) (s : State) : bool :=
  isDetectionRunning s && negb (throttled timestamp s).

(** *** Sessions and frames used as examples *)

(** A session in which the second cycle starts while the first is still
    suspended: 250 ms after the first start the throttle lets the next
    tick through. *)
Definition overlapping : list Event :=
  [Start true true; AnimationFrame 1000; AnimationFrame 1250].

(** [n] ticks, 200 ms apart, the first at [t]. *)
Fixpoint ticksFrom (t : Q) (n : nat) : list Event :=
  match n with
  | O => []
  | S n' => AnimationFrame t :: ticksFrom (t + 200) n'
  end.

(** Frames: one that cannot be read, one on which the model fails, one
    whose output cannot be decoded. *)
Definition unreadableFrame : FrameEnv :=
  mkFrameEnv true (fun _ => None) (Some (Throws "no pixels"))
             (Returns (Some [])).
Definition failingModel : FrameEnv :=
  mkFrameEnv true (fun _ => None) (Some (Returns (720, 1280)%Z))
             (Throws "execute failed").
Definition malformedOutput : FrameEnv :=
  mkFrameEnv true (fun _ => None) (Some (Returns (720, 1280)%Z))
             (Returns None).

(** The scores of the 80 classes of an anchor, given those of the first
    classes; the others are 0. *)
Definition classScoresOf (given : list Q) : list Q :=
  given ++ repeat 0 (80 - List.length given).

Definition carAnchor : Anchor :=
  mkAnchor 320 320 80 60 (classScoresOf [1 # 10; 5 # 100; 82 # 100]).
Definition personAnchor : Anchor :=
  mkAnchor 500 300 40 120 (classScoresOf [9 # 10; 2 # 100; 1 # 100]).
Definition backgroundAnchor : Anchor :=
  mkAnchor 100 500 40 40 (classScoresOf [5 # 100; 2 # 100; 1 # 100]).

Definition cocoNames (c : nat) : option string :=
  match c with
  | 0%nat => Some "person"%string
  | 2%nat => Some "car"%string
  | _ => None
  end.

(** A 1280x720 frame in which the model sees one object, of class 2 with
    score 0.82, centred at (320, 320) in model space; the second anchor of
    the output is background. *)
Definition carFrame : FrameEnv :=
  mkFrameEnv true cocoNames (Some (Returns (720, 1280)%Z))
             (Returns (Some [carAnchor; backgroundAnchor])).

(** The same frame with a person next to the car. *)
Definition streetFrame : FrameEnv :=
  mkFrameEnv true cocoNames (Some (Returns (720, 1280)%Z))
             (Returns (Some [carAnchor; backgroundAnchor; personAnchor])).

(** A model output with the car's anchor alone. *)
Definition singleAnchorFrame : FrameEnv :=
  mkFrameEnv true cocoNames (Some (Returns (720, 1280)%Z))
             (Returns (Some [carAnchor])).

(** A running session with one cycle in flight. *)
Definition oneInFlight : State :=
  run (initial "car") [Start true true; AnimationFrame 1000].

(** A session that ran a cycle at 1000 ms and was then hidden. *)
Definition hiddenSession : State :=
  run (initial "car")
      [Start true true; AnimationFrame 1000;
       Settle carFrame 1 1 (Tracker.clockFrom 1700000000123);
       VisibilityChange true].

(** A running session that tracks the car of [carFrame] and has a further
    cycle in flight. *)
Definition trackingSession : State :=
  run (initial "car")
      [Start true true; AnimationFrame 1000; AnimationFrame 1200;
       Settle carFrame 1 1 (Tracker.clockFrom 1700000000123)].

(** A session whose only cycle fails in the model while the page is hidden,
    and which is then shown again. *)
Definition failedWhileHidden : list Event :=
  [Start true true; AnimationFrame 1000; VisibilityChange true;
   Settle failingModel 1 1 (Tracker.clockFrom 1700000000123);
   VisibilityChange false].

(** A session that is hidden and shown between two ticks 16 ms apart. *)
Definition pausedBetweenTicks : list Event :=
  [Start true true; AnimationFrame 1000; VisibilityChange true;
   VisibilityChange false; AnimationFrame 1016].

(** *** Cycle starts along a trace *)

(** The timestamps of the ticks of a trace that start a cycle, in order: a
    tick starts a cycle when it leaves one more activation suspended at
    [await processFrame(...)]. *)
Fixpoint cycleStarts (s : State) (trace : list Event) : list Q :=
  match trace with
  | [] => []
  | ev :: rest =>
      match ev with
      | AnimationFrame timestamp =>
          if (inFlight s <? inFlight (step s ev))%nat
          then timestamp :: cycleStarts (step s ev) rest
          else cycleStarts (step s ev) rest
      | _ => cycleStarts (step s ev) rest
      end
  end.

(** The events whose handlers assign [lastDetectionTime = 0]: a start and a
    return to visibility. *)
Definition resetsClock (ev : Event) : bool :=
  match ev with
  | Start _ _ => true
  | VisibilityChange hidden => negb hidden
  | _ => false
  end.

(** Each timestamp is at least [interval] after the one before it, the first
    at least [interval] after [last]. *)
Fixpoint Spaced (interval last : Q) (timestamps : list Q) : Prop :=
  match timestamps with
  | [] => True
  | t :: rest => last + interval <= t /\ Spaced interval t rest
  end.

(** *** Section 7 of the specification in its own words

    A failure in preprocessing or inference is fatal to the session: once
    the failed cycle has settled no tick starts a cycle, whatever happens on
    the page short of a new start. A decode failure aborts the cycle and
    nothing else: the settled cycle leaves the running flag, the tracker's
    records and the emitted sets as they were. *)
Definition isStart (ev : Event) : bool :=
  match ev with
  | Start _ _ => true
  | _ => false
  end.

Definition isSettle (ev : Event) : bool :=
  match ev with
  | Settle _ _ _ _ => true
  | _ => false
  end.

Definition FatalToSession (env : FrameEnv) : Prop :=
  forall (s : State) (ratioX ratioY : Q) (now : nat -> Z)
         (rest : list Event) (timestamp : Q),
    (0 < inFlight s)%nat ->
    existsb isStart rest = false ->
    startsCycle timestamp (run (step s (Settle env ratioX ratioY now)) rest) = false.

Definition AbortsCycleOnly (env : FrameEnv) : Prop :=
  forall (s : State) (ratioX ratioY : Q) (now : nat -> Z),
    (0 < inFlight s)%nat ->
    let s' := step s (Settle env ratioX ratioY now) in
    isDetectionRunning s' = isDetectionRunning s
    /\ previousDetections s' = previousDetections s
    /\ emitted s' = emitted s.

End Pipeline.

(** ** Runs of the tracker over several cycles *)

Module TrackerRuns.
Import Scheduler Geometry JS Tracker.

(** A cycle in which [processFrame] found one object: what the page reads,
    the padding, and the object's box, score and class name. *)
Definition SingleCycle : Type := Display * PaddingInfo * Box * Q * string.

Definition cycleBox (f : SingleCycle) : Box :=
  let '(_, _, b, _, _) := f in b.

(** The ids emitted by consecutive calls of [updateDetectionBoxes], each with
    one fresh detection of class [c], starting from [prev]. *)
Fixpoint idsOver (c : Z) (prev : list TrackRecord) (cycles : list SingleCycle)
  : list (list (option string)) :=
  match cycles with
  | [] => []
  | (e, p, b, s, n) :: rest =>
      let r := updateDetectionBoxes e [newDetection b s c n] p prev in
      map id (detections (fst r)) :: idsOver c (snd r) rest
  end.

(** From one cycle to the next the top-left corner moves by less than the
    threshold in both coordinates, starting from [b0]. *)
Fixpoint SmallMoves (b0 : Box) (cycles : list SingleCycle) : Prop :=
  match cycles with
  | [] => True
  | f :: rest =>
      Qabs (bx1 (cycleBox f) - bx1 b0) < 15 # 100
      /\ Qabs (by1 (cycleBox f) - by1 b0) < 15 # 100
      /\ SmallMoves (cycleBox f) rest
  end.

(** The record [previousDetections] keeps of a tracked detection. *)
Definition recordOf (d : Detection) : TrackRecord :=
  {| prev_id := match id d with Some i => i | None => ""%string end;
     prev_class := class d;
     prev_box := box d |}.

(** The detection is shown as a keyword match: its [isKeywordMatch] is
    truthy. *)
Definition flagged (d : Detection) : bool :=
  match isKeywordMatch d with
  | Some v => truthy v
  | None => false
  end.

End TrackerRuns.

(** ** Box elements on the page (ui.js; detection.js, lines 322-367) *)

Module Ui.
Import Scheduler Geometry JS Tracker.

(** Value of a character matched by [[a-f\d]] under the [i] flag. *)
Definition hexDigit (c : ascii) : option Z :=
  let n := nat_of_ascii c in
  if ((48 <=? n) && (n <=? 57))%nat then Some (Z.of_nat n - 48)%Z
  else if ((97 <=? n) && (n <=? 102))%nat then Some (Z.of_nat n - 87)%Z
  else if ((65 <=? n) && (n <=? 70))%nat then Some (Z.of_nat n - 55)%Z
  else None.

(** [parseInt(xy, 16)] for a group of two hexadecimal digits. *)
Definition parseHexPair (x y : ascii) : option Z :=
  match hexDigit x, hexDigit y with
  | Some a, Some b => Some (16 * a + b)%Z
  | _, _ => None
  end.

(** Three groups of two hexadecimal digits and then the end of the text. *)
Definition sixDigits (s : string) : option (Z * Z * Z) :=
  match s with
  | String r1 (String r2 (String g1 (String g2 (String b1 (String b2 EmptyString))))) =>
      match parseHexPair r1 r2, parseHexPair g1 g2, parseHexPair b1 b2 with
      | Some r, Some g, Some b => Some (r, g, b)
      | _, _, _ => None
      end
  | _ => None
  end.

(** The regular expression [/^#?([a-f\d]{2})([a-f\d]{2})([a-f\d]{2})$/i] with
    its three groups parsed: a leading [#] cannot be a digit, so when the
    text has one the groups follow it. *)
Definition matchHex (hex : string) : option (Z * Z * Z) :=
  match hex with
  | String "#" rest => sixDigits rest
  | _ => sixDigits hex
  end.

Definition rgbaText (r g b : Z) (alpha : string) : string :=
  ("rgba(" ++ String_of_Z r ++ ", " ++ String_of_Z g ++ ", "
     ++ String_of_Z b ++ ", " ++ alpha ++ ")")%string.

(** [hexToRgba(hex, alpha)]; [alpha] is the text the template literal prints
    for the number. *)
Definition hexToRgba (hex alpha : string) : string :=
  match matchHex hex with
  | Some (r, g, b) => rgbaText r g b alpha
  | None => rgbaText 255 0 0 alpha
  end.

(** The palette of [createBoxElement]. *)
Definition colors : list string :=
  ["#FF3838"; "#FF9D97"; "#FF701F"; "#FFB21D"; "#CFD231";
   "#48F90A"; "#92CC17"; "#3DDB86"; "#1A9334"; "#00D4BB";
   "#2C99A8"; "#00C2FF"; "#344593"; "#6473FF"; "#0018EC";
   "#8438FF"; "#520085"; "#CB38FF"; "#FF95C8"; "#FF37C7"]%string.

(** What the page shows for one detection: the [div] with its position and
    size, its colours, and the two spans of its label. Style lengths are held
    as the numbers written into them. *)
Record BoxElement := mkBoxElement {
  el_left : Q;
  el_top : Q;
  el_width : Q;
  el_height : Q;
  el_border : string;
  el_background : string;
  el_className : string;
  el_accuracy : Z
}.

(** The colour [createBoxElement] picks: green for a keyword match, else the
    palette entry at [classId % colors.length] (the remainder has the sign of
    [classId]; outside the palette the entry is [undefined]). *)
Definition colorOf (d : Detection) : string :=
  let colorIndex := Z.rem (class d) (Z.of_nat (List.length colors)) in
  let isMatch := match isKeywordMatch d with Some v => truthy v | None => false end in
  if isMatch then "#00FF00"%string
  else if (colorIndex <? 0)%Z then "undefined"%string
  else nth (Z.to_nat colorIndex) colors "undefined"%string.

(** [createBoxElement(detection, container)]: the new element, stored in
    [boxElements] under the detection's id. Without a [screenBox] the
    destructuring throws ([None]). The fade-in and the placing of the label
    are timers of the display and are left out. *)
Definition createBoxElement (d : Detection) : option BoxElement :=
  match screenBox d with
  | None => None
  | Some sb =>
      let color := colorOf d in
      Some {| el_left := sx1 sb; el_top := sy1 sb;
              el_width := width sb; el_height := height sb;
              el_border := ("2px solid " ++ color)%string;
              el_background := hexToRgba color "0.2";
              el_className := (className d ++ " - ")%string;
              el_accuracy := Math_round (score d * 100) |}
  end.

(** [a > b] on numbers. *)
Definition Qgtb (a b : Q) : bool := Qltb b a.

(** [updateExistingBoxElement(boxElement, detection)]: position and size are
    rewritten only when one of them is off by more than 1; the percentage is
    rewritten when it differs. *)
Definition updateExistingBoxElement (el : BoxElement) (d : Detection)
  : option BoxElement :=
  match screenBox d with
  | None => None
  | Some sb =>
      let positionChanged :=
        Qgtb (Qabs (el_left el - sx1 sb)) 1
        || Qgtb (Qabs (el_top el - sy1 sb)) 1
        || Qgtb (Qabs (el_width el - width sb)) 1
        || Qgtb (Qabs (el_height el - height sb)) 1 in
      let newScore := Math_round (score d * 100) in
      Some {| el_left := if positionChanged then sx1 sb else el_left el;
              el_top := if positionChanged then sy1 sb else el_top el;
              el_width := if positionChanged then width sb else el_width el;
              el_height := if positionChanged then height sb else el_height el;
              el_border := el_border el;
              el_background := el_background el;
              el_className := el_className el;
              el_accuracy :=
                if (el_accuracy el =? newScore)%Z then el_accuracy el
                else newScore |}
  end.

(** The object [boxElements]: its keys, in insertion order, with their
    elements. *)
Definition BoxTable : Type := list (string * BoxElement).

Definition keys (t : BoxTable) : list string := map fst t.

(** [boxElements[id]]. *)
Fixpoint lookup (i : string) (t : BoxTable) : option BoxElement :=
  match t with
  | [] => None
  | (k, el) :: rest => if (k =? i)%string then Some el else lookup i rest
  end.

(** [delete boxElements[id]]. *)
Definition deleteKey (i : string) (t : BoxTable) : BoxTable :=
  filter (fun kv => negb (fst kv =? i)%string) t.

(** [boxElements[id] = el]: an existing key keeps its place. *)
Fixpoint setKey (i : string) (el : BoxElement) (t : BoxTable) : BoxTable :=
  match t with
  | [] => [(i, el)]
  | (k, old) :: rest =>
      if (k =? i)%string then (k, el) :: rest else (k, old) :: setKey i el rest
  end.

(** "Remove boxes for objects no longer detected". *)
Definition removeStale (processedIds : list string) (t : BoxTable) : BoxTable :=
  filter (fun kv => existsb (fun p => (p =? fst kv)%string) processedIds) t.

(** One round of "Create or update boxes for current detections";
    [previousDetections] is still the list of the cycle before. [None] is a
    thrown error. *)
Definition renderOne (previousDetections : list TrackRecord)
           (t : BoxTable) (d : Detection) : option BoxTable :=
  match id d with
  | None => Some t
  | Some i =>
      if negb (truthy (VString i)) then Some t
      else
        let prev := find (fun p => (prev_id p =? i)%string) previousDetections in
        let sameClass :=
          match prev with
          | Some p => (prev_class p =? class d)%Z
          | None => false
          end in
        if negb sameClass then
          let t1 := match lookup i t with
                    | Some _ => deleteKey i t
                    | None => t
                    end in
          match createBoxElement d with
          | Some el => Some (setKey i el t1)
          | None => None
          end
        else
          match lookup i t with
          | Some old =>
              match updateExistingBoxElement old d with
              | Some el => Some (setKey i el t)
              | None => None
              end
          | None =>
              match createBoxElement d with
              | Some el => Some (setKey i el t)
              | None => None
              end
          end
  end.

Fixpoint renderAll (previousDetections : list TrackRecord)
         (t : BoxTable) (dets : list Detection) : option BoxTable :=
  match dets with
  | [] => Some t
  | d :: rest =>
      match renderOne previousDetections t d with
      | Some t' => renderAll previousDetections t' rest
      | None => None
      end
  end.

(** The part of [updateDetectionBoxes] that acts on [boxElements]: after the
    tracking loop, stale boxes are removed and the boxes of the tracked
    detections are created or updated. *)
Definition updateBoxElements (e : Display) (dets : list Detection)
           (p : PaddingInfo) (previousDetections : list TrackRecord)
           (t : BoxTable) : option BoxTable :=
  let st := fold_left (trackOne e p) dets
              (mkLoopState previousDetections [] 0 []) in
  renderAll previousDetections (removeStale (processedIds st) t) (tracked st).

(** An element shows a detection to within one unit in position and size. *)
Definition Shows (el : BoxElement) (d : Detection) : Prop :=
  match screenBox d with
  | Some sb =>
      Qabs (el_left el - sx1 sb) <= 1 /\ Qabs (el_top el - sy1 sb) <= 1
      /\ Qabs (el_width el - width sb) <= 1
      /\ Qabs (el_height el - height sb) <= 1
      /\ el_accuracy el = Math_round (score d * 100)
  | None => False
  end.

(** What the tracking loop hands to the third loop: detections with a
    non-empty id, a screen box and a non-negative class. *)
Definition ReadyList (ds : list Detection) : Prop :=
  Forall (fun d => (exists i, id d = Some i /\ i <> ""%string)
                   /\ (exists sb, screenBox d = Some sb)
                   /\ (0 <= class d)%Z) ds.

(** The key under which a detection's box is stored. *)
Definition idOf (d : Detection) : string :=
  match id d with Some i => i | None => ""%string end.

End Ui.

(** ** Scheduler: proofs *)

Module SchedulerFacts.
Import Scheduler.

Lemma Qltb_lt (a b : Q) : Qltb a b = true <-> a < b.
Proof.
  unfold Qltb. rewrite negb_true_iff. split.
  - intros H. apply Qnot_le_lt. intros Hle.
    apply Qle_bool_iff in Hle. congruence.
  - intros H. destruct (Qle_bool b a) eqn:E; [|reflexivity].
    apply Qle_bool_iff in E. lra.
Qed.

Lemma fold_left_plus_acc (l : list Q) (a : Q) :
  fold_left (fun sum time => sum + time) l a == a + fold_right Qplus 0 l.
Proof.
  revert a; induction l as [|x l IH]; intros a; simpl.
  - ring.
  - rewrite IH. ring.
Qed.

Lemma reduce_sum_fold_right (l : list Q) :
  reduce_sum l == fold_right Qplus 0 l.
Proof. unfold reduce_sum. rewrite fold_left_plus_acc. ring. Qed.

Lemma Math_max_min_clamp (x : Q) :
  Math_max MIN_INTERVAL (Math_min MAX_INTERVAL x) == clamp 0 500 x.
Proof.
  unfold Math_max, Math_min, clamp, MIN_INTERVAL, MAX_INTERVAL.
  destruct (Qlt_le_dec x 0) as [Hlo|Hlo];
    destruct (Qlt_le_dec 500 x) as [Hhi|Hhi];
    destruct (Qle_bool 500 x) eqn:E1;
    try (apply Qle_bool_iff in E1);
    try (assert (~ 500 <= x) by (intro HH; apply Qle_bool_iff in HH; congruence)).
  all: match goal with
       | |- context [Qle_bool 0 ?y] =>
           destruct (Qle_bool 0 y) eqn:E2;
           try (apply Qle_bool_iff in E2);
           try (assert (~ 0 <= y) by (intro HH; apply Qle_bool_iff in HH; congruence))
       end.
  all: try lra.
Qed.

Lemma clamp_compat (lo hi x y : Q) :
  x == y -> clamp lo hi x == clamp lo hi y.
Proof.
  intros Hxy. unfold clamp.
  destruct (Qlt_le_dec x lo), (Qlt_le_dec y lo);
    destruct (Qlt_le_dec hi x), (Qlt_le_dec hi y); lra.
Qed.

Lemma recordFrameTiming_length (t : Q) (w : list Q) :
  (length w <= MAX_SAMPLES)%nat ->
  (length (recordFrameTiming t w) <= MAX_SAMPLES)%nat.
Proof.
  intros Hw. unfold recordFrameTiming.
  destruct (MAX_SAMPLES <? length (w ++ [t]))%nat eqn:E.
  - destruct (w ++ [t]) as [|y r] eqn:Er; simpl; [lia|].
    assert (Hl : length (w ++ [t]) = S (length r)) by (rewrite Er; reflexivity).
    rewrite length_app in Hl; simpl in Hl. lia.
  - apply Nat.ltb_ge in E. exact E.
Qed.

Lemma recordAll_capacity (ds : list Q) :
  (length (recordAll ds) <= MAX_SAMPLES)%nat.
Proof.
  unfold recordAll.
  assert (G : forall w, (length w <= MAX_SAMPLES)%nat ->
            (length (fold_left (fun w t => recordFrameTiming t w) ds w) <= MAX_SAMPLES)%nat).
  { induction ds as [|d ds IH]; intros w Hw; simpl; [exact Hw|].
    apply IH, recordFrameTiming_length, Hw. }
  apply G. unfold MAX_SAMPLES; simpl; lia.
Qed.

(** C5. For every sequence of recorded durations, [getDetectionInterval] on
    the stored window is 200 when fewer than 5 samples are stored and
    otherwise the mean of the stored samples times 1.2 clamped to [0, 500];
    the window never holds more than 10 samples; and five recorded samples
    of 100 give 120. *)
Theorem getDetectionInterval_spec (durations : list Q) :
  let stored := recordAll durations in
  getDetectionInterval stored
    == (if (length stored <? 5)%nat then 200
        else clamp 0 500 (mean stored * (12 # 10)))
  /\ (length stored <= 10)%nat
  /\ getDetectionInterval (recordAll [100; 100; 100; 100]) = 200
  /\ getDetectionInterval (recordAll [100; 100; 100; 100; 100]) == 120.
Proof.
  split; [|split; [apply recordAll_capacity|split; [reflexivity|]]].
  - generalize (recordAll durations) as w; intros w.
    unfold getDetectionInterval.
    destruct (5 <=? length w)%nat eqn:E.
    + apply Nat.leb_le in E.
      assert (E' : (length w <? 5)%nat = false) by (apply Nat.ltb_ge; exact E).
      rewrite E'. rewrite Math_max_min_clamp.
      apply clamp_compat. unfold mean.
      rewrite reduce_sum_fold_right. reflexivity.
    + apply Nat.leb_gt in E.
      assert (E' : (length w <? 5)%nat = true) by (apply Nat.ltb_lt; exact E).
      rewrite E'. reflexivity.
  - vm_compute. reflexivity.
Qed.

End SchedulerFacts.

Module GeometryFacts.
Import Scheduler Geometry.

Lemma Math_min_pos (a b : Q) : 0 < a -> 0 < b -> 0 < Math_min a b.
Proof. intros Ha Hb. unfold Math_min. destruct (Qle_bool a b); assumption. Qed.

Lemma inject_Z_pos (z : Z) : (0 < z)%Z -> 0 < inject_Z z.
Proof. intros Hz. change 0 with (inject_Z 0). rewrite <- Zlt_Qlt. exact Hz. Qed.

Lemma scale_pos (h w : Z) :
  (0 < w)%Z -> (0 < h)%Z -> 0 < scale (paddingInfo h w).
Proof.
  intros Hw Hh. unfold paddingInfo, letterbox; simpl.
  apply Math_min_pos; apply Qlt_shift_div_l;
    try (apply inject_Z_pos; assumption);
    rewrite Qmult_0_l; apply inject_Z_pos; reflexivity.
Qed.

Lemma unpad_toModelSpace (p : PaddingInfo) (b : Box) :
  ~ scale p == 0 -> Box_eq (unpad p (toModelSpace p b)) b.
Proof.
  intros Hs. unfold Box_eq, unpad, toModelSpace; simpl.
  repeat split; field; exact Hs.
Qed.

Lemma toModelSpace_unpad (p : PaddingInfo) (b : Box) :
  ~ scale p == 0 -> Box_eq (toModelSpace p (unpad p b)) b.
Proof.
  intros Hs. unfold Box_eq, unpad, toModelSpace; simpl.
  repeat split; field; exact Hs.
Qed.

(** The worked scenario: a 1280x720 frame gives scale 1/2, a 640x360
    resized image, 140 rows of padding above and none on the left. *)
Example letterbox_1280x720 :
  let l := letterbox 720 1280 in
  scale (info l) == 1 # 2 /\ newWidth l = 640%Z /\ newHeight l = 360%Z
  /\ padTop (info l) = 140%Z /\ padLeft (info l) = 0%Z
  /\ padBottom l = 140%Z /\ padRight l = 0%Z.
Proof. vm_compute. repeat split; reflexivity. Qed.

(** C3. For every frame size with positive width and height and every box
    of the original frame, placing the box in model space with the
    preprocessor's scale, padLeft and padTop and then applying the mapper's
    unpad formulas with the same values gives back the box (exactly, in
    exact arithmetic); the mapping is also a round trip the other way. *)
Theorem unpad_roundtrip (w h : Z) (b : Box) :
  (0 < w)%Z -> (0 < h)%Z ->
  let p := paddingInfo h w in
  Box_eq (unpad p (toModelSpace p b)) b /\ Box_eq (toModelSpace p (unpad p b)) b.
Proof.
  intros Hw Hh p.
  assert (Hs : ~ scale p == 0).
  { pose proof (scale_pos h w Hw Hh) as H. fold p in H. lra. }
  split; [apply unpad_toModelSpace | apply toModelSpace_unpad]; exact Hs.
Qed.

Lemma unpad_roundtrip_witness :
  let p := paddingInfo 720 1280 in
  let b := mkBox 100 50 300 200 in
  Box_eq (unpad p (toModelSpace p b)) b /\ Box_eq (toModelSpace p (unpad p b)) b.
Proof. apply (unpad_roundtrip 1280 720 (mkBox 100 50 300 200)); reflexivity. Defined.

End GeometryFacts.

(** ** Keyword filter: proofs *)

Module KeywordFacts.
Import JS Tracker.
Local Open Scope string_scope.

Lemma startsWith_iff (s k : string) :
  startsWith s k = true <-> exists post, s = k ++ post.
Proof.
  revert s; induction k as [|a k IH]; intros s; simpl.
  - split; [intros _; exists s; reflexivity | reflexivity].
  - destruct s as [|b s]; simpl.
    + split; [discriminate | intros [post H]; discriminate].
    + rewrite andb_true_iff, Ascii.eqb_eq, IH. split.
      * intros [-> [post ->]]. exists post. reflexivity.
      * intros [post H]. injection H as -> ->. split; [reflexivity|].
        exists post; reflexivity.
Qed.

Lemma includes_iff (s k : string) :
  includes s k = true <-> Substring k s.
Proof.
  unfold Substring. induction s as [|c s IH].
  - simpl. rewrite orb_false_r, startsWith_iff. split.
    + intros [post H]. exists "", post. exact H.
    + intros [pre [post H]]. destruct pre; simpl in H.
      * exists post; exact H.
      * discriminate.
  - change (includes (String c s) k)
      with (startsWith (String c s) k || includes s k)%bool.
    rewrite orb_true_iff, startsWith_iff, IH. split.
    + intros [[post H] | [pre [post H]]].
      * exists "", post. exact H.
      * exists (String c pre), post. simpl. rewrite H. reflexivity.
    + intros [pre [post H]]. destruct pre as [|c' pre]; simpl in H.
      * left. exists post. exact H.
      * right. injection H as _ H. exists pre, post. exact H.
Qed.

Lemma truthy_string (s : string) : truthy (VString s) = true <-> s <> "".
Proof.
  simpl. rewrite negb_true_iff. split.
  - intros H ->. discriminate.
  - intros H. apply String.eqb_neq. exact H.
Qed.

(** *** Letter case *)

Lemma casePairs_lower (u l : ascii) :
  In (u, l) casePairs ->
  lower_ascii u = l /\ lower_ascii l = l
  /\ nat_of_ascii l = (nat_of_ascii u + 32)%nat.
Proof.
  unfold casePairs. cbn [upperCaseLetters lowerCaseLetters list_ascii_of_string combine In].
  intros H.
  repeat (destruct H as [H|H];
          [injection H as <- <-; repeat split; reflexivity|]).
  destruct H.
Qed.

Lemma casePairs_In (a b : ascii) :
  existsb (fun p => Ascii.eqb (fst p) a && Ascii.eqb (snd p) b) casePairs = true ->
  In (a, b) casePairs.
Proof.
  intros H. apply existsb_exists in H. destruct H as [[u l] [Hin Heq]].
  apply andb_true_iff in Heq. simpl in Heq. destruct Heq as [Hu Hl].
  apply Ascii.eqb_eq in Hu. apply Ascii.eqb_eq in Hl. subst. exact Hin.
Qed.

(** A character either is an upper-case letter, paired with its lowered
    form, or is left alone by the conversion. *)
Lemma lower_ascii_cases (c : ascii) :
  In (c, lower_ascii c) casePairs \/ lower_ascii c = c.
Proof.
  destruct c as [[] [] [] [] [] [] [] []];
    first [ right; reflexivity
          | left; apply casePairs_In; reflexivity ].
Qed.

Lemma nat_of_ascii_inj (a b : ascii) : nat_of_ascii a = nat_of_ascii b -> a = b.
Proof.
  intros H. rewrite <- (ascii_nat_embedding a), <- (ascii_nat_embedding b), H.
  reflexivity.
Qed.

(** The conversion identifies exactly the characters that are the same
    letter. *)
Lemma lower_ascii_same (a b : ascii) :
  lower_ascii a = lower_ascii b <-> SameLetter a b.
Proof.
  split.
  - intros H.
    destruct (lower_ascii_cases a) as [Ha | Ha],
             (lower_ascii_cases b) as [Hb | Hb].
    + left. apply nat_of_ascii_inj.
      destruct (casePairs_lower _ _ Ha) as (_ & _ & Hx).
      destruct (casePairs_lower _ _ Hb) as (_ & _ & Hy).
      rewrite H in Hx. lia.
    + right. left. rewrite H, Hb in Ha. exact Ha.
    + right. right. rewrite <- H, Ha in Hb. exact Hb.
    + left. congruence.
  - intros [-> | [H | H]]; [reflexivity | |];
      destruct (casePairs_lower _ _ H) as (H1 & H2 & _); congruence.
Qed.

Lemma toLowerCase_same (s t : string) :
  toLowerCase s = toLowerCase t <-> SameLetters s t.
Proof.
  revert t; induction s as [|a s IH]; intros [|b t]; simpl;
    try (split; [discriminate | contradiction]).
  - tauto.
  - rewrite <- lower_ascii_same, <- IH. split.
    + intros H. injection H as H1 H2. auto.
    + intros [-> ->]. reflexivity.
Qed.

Lemma toLowerCase_app (s t : string) :
  toLowerCase (s ++ t) = toLowerCase s ++ toLowerCase t.
Proof.
  induction s as [|c s IH]; simpl; [reflexivity|]. rewrite IH. reflexivity.
Qed.

Lemma toLowerCase_split (s a b : string) :
  toLowerCase s = a ++ b ->
  exists x y, s = x ++ y /\ toLowerCase x = a /\ toLowerCase y = b.
Proof.
  revert s; induction a as [|c a IH]; intros s H; simpl in H.
  - exists "", s. auto.
  - destruct s as [|d s]; [discriminate|]. simpl in H. injection H as Hc H.
    destruct (IH s H) as (x & y & -> & Hx & Hy).
    exists (String d x), y. simpl. rewrite Hc, Hx. auto.
Qed.

(** The search in the lowered name for the lowered keyword finds exactly the
    places where the name has the keyword's letters, in either case. *)
Lemma includes_ignoring_case (name keyword : string) :
  includes (toLowerCase name) (toLowerCase keyword) = true
  <-> SubstringIgnoringCase keyword name.
Proof.
  rewrite includes_iff. unfold Substring, SubstringIgnoringCase. split.
  - intros (pre & post & H).
    apply toLowerCase_split in H. destruct H as (x & rest & -> & _ & H).
    apply toLowerCase_split in H. destruct H as (mid & y & -> & Hmid & _).
    exists x, mid, y. split; [reflexivity|].
    apply toLowerCase_same. exact Hmid.
  - intros (pre & mid & post & -> & H).
    apply toLowerCase_same in H.
    exists (toLowerCase pre), (toLowerCase post).
    rewrite !toLowerCase_app, H. reflexivity.
Qed.

Lemma keywordMatch_true (keyword name : string) :
  keywordMatch keyword name = VBoolean true
  <-> keyword <> "" /\ includes (toLowerCase name) (toLowerCase keyword) = true.
Proof.
  unfold keywordMatch, and_string.
  destruct (truthy (VString keyword)) eqn:E.
  - apply truthy_string in E. split.
    + intros H. injection H as H. split; assumption.
    + intros [_ H]. rewrite H. reflexivity.
  - split; [discriminate|]. intros [Hne _].
    apply truthy_string in Hne. congruence.
Qed.

Lemma keywordMatch_truthy (keyword name : string) :
  truthy (keywordMatch keyword name) = true
  <-> keywordMatch keyword name = VBoolean true.
Proof.
  unfold keywordMatch, and_string.
  destruct (truthy (VString keyword)) eqn:E.
  - simpl. split; [intros ->; reflexivity | intros H; injection H as ->; reflexivity].
  - rewrite E. split; discriminate.
Qed.

(** C9. For a keyword and a class name of ASCII characters, the value
    stored in [isKeywordMatch] is [true] (and, equivalently, truthy) exactly
    when the keyword is non-empty and the class name contains it somewhere up
    to letter case; this is the same as the lowercased class name containing
    the lowercased keyword as a substring. So the keyword "car" flags the
    unrelated class "carrot", and "CaR" flags "Sports CAR", where letters of
    both texts have to change case. *)
Theorem keywordMatch_spec (keyword name : string) :
  Ascii7 keyword -> Ascii7 name ->
  (keywordMatch keyword name = VBoolean true <->
     keyword <> "" /\ SubstringIgnoringCase keyword name)
  /\ (SubstringIgnoringCase keyword name <->
        Substring (toLowerCase keyword) (toLowerCase name))
  /\ (truthy (keywordMatch keyword name) = true <->
        keywordMatch keyword name = VBoolean true)
  /\ toLowerCase "Sports CAR" = "sports car"
  /\ keywordMatch "car" "carrot" = VBoolean true
  /\ keywordMatch "CaR" "Sports CAR" = VBoolean true
  /\ keywordMatch "car" "Sports CAR" = VBoolean true
  /\ keywordMatch "Car" "truck" = VBoolean false
  /\ keywordMatch "" "car" = VString "".
Proof.
  intros _ _.
  split; [|split; [|split; [|repeat split; reflexivity]]].
  - rewrite keywordMatch_true, includes_ignoring_case. reflexivity.
  - rewrite <- includes_ignoring_case. apply includes_iff.
  - apply keywordMatch_truthy.
Qed.

(** The keyword "CaR" against the class name "Sports CAR". *)
Lemma keywordMatch_spec_witness :
  keywordMatch "CaR" "Sports CAR" = VBoolean true
  <-> "CaR" <> "" /\ SubstringIgnoringCase "CaR" "Sports CAR".
Proof.
  apply (keywordMatch_spec "CaR" "Sports CAR");
    simpl; repeat split; reflexivity.
Defined.

End KeywordFacts.

(** ** Object tracker: proofs *)

Module TrackerFacts.
Import Scheduler Geometry JS Tracker.

(** *** Ids as strings *)

Section IdStrings.
Local Open Scope string_scope.

Lemma NoSep_uint (d : Decimal.uint) :
  NoSep (DecimalString.NilEmpty.string_of_uint d).
Proof. induction d; simpl; auto; split; auto; discriminate. Qed.

Lemma NoSep_String_of_Z (z : Z) : NoSep (String_of_Z z).
Proof.
  unfold String_of_Z, DecimalString.NilZero.string_of_int,
    DecimalString.NilZero.string_of_uint.
  destruct (Z.to_int z) as [d|d]; destruct d;
    try (split; [discriminate|]);
    try (apply (NoSep_uint (Decimal.D0 _)) || apply (NoSep_uint (Decimal.D1 _))
         || apply (NoSep_uint (Decimal.D2 _)) || apply (NoSep_uint (Decimal.D3 _))
         || apply (NoSep_uint (Decimal.D4 _)) || apply (NoSep_uint (Decimal.D5 _))
         || apply (NoSep_uint (Decimal.D6 _)) || apply (NoSep_uint (Decimal.D7 _))
         || apply (NoSep_uint (Decimal.D8 _)) || apply (NoSep_uint (Decimal.D9 _)));
    simpl; auto; split; auto; discriminate.
Qed.

Lemma to_int_not_nil (z : Z) :
  Z.to_int z <> Decimal.Pos Decimal.Nil /\ Z.to_int z <> Decimal.Neg Decimal.Nil.
Proof.
  destruct z as [|p|p]; simpl; split; try discriminate;
    intros H; injection H as H; exact (DecimalPos.Unsigned.to_uint_nonnil p H).
Qed.

Lemma String_of_Z_inj (a b : Z) : String_of_Z a = String_of_Z b -> a = b.
Proof.
  unfold String_of_Z. intros H.
  apply (f_equal DecimalString.NilZero.int_of_string) in H.
  destruct (to_int_not_nil a) as [Ha1 Ha2], (to_int_not_nil b) as [Hb1 Hb2].
  rewrite !DecimalString.NilZero.isi in H by assumption.
  injection H as H. apply DecimalZ.to_int_inj. exact H.
Qed.

Lemma sep_prefix_inj (s1 s2 r1 r2 : string) :
  NoSep s1 -> NoSep s2 -> s1 ++ "_" ++ r1 = s2 ++ "_" ++ r2 -> s1 = s2.
Proof.
  revert s2; induction s1 as [|c s1 IH]; intros [|c2 s2]; simpl.
  - reflexivity.
  - intros _ [Hc _] H. injection H as H _. congruence.
  - intros [Hc _] _ H. injection H as H _. congruence.
  - intros [_ H1] [_ H2] H. injection H as -> H.
    f_equal. apply IH; assumption.
Qed.

Lemma HasClassPrefix_inj (c1 c2 : Z) (i : string) :
  HasClassPrefix c1 i -> HasClassPrefix c2 i -> c1 = c2.
Proof.
  intros [r1 H1] [r2 H2]. rewrite H1 in H2.
  apply String_of_Z_inj.
  apply (sep_prefix_inj _ _ r1 r2); auto using NoSep_String_of_Z.
Qed.

Lemma freshId_prefix (now : Z) (d : Detection) :
  HasClassPrefix (class d) (freshId now d).
Proof. unfold freshId. eexists. reflexivity. Qed.

End IdStrings.

(** *** Lists with positions *)

Lemma mapi_from_length {A B : Type} (f : nat -> A -> B) (i : nat) (l : list A) :
  List.length (mapi_from f i l) = List.length l.
Proof.
  revert i; induction l as [|x l IH]; intros i; simpl; [reflexivity|].
  rewrite IH. reflexivity.
Qed.

Lemma map_mapi_from {A B C : Type} (g : B -> C) (f : nat -> A -> B)
      (i : nat) (l : list A) :
  map g (mapi_from f i l) = mapi_from (fun j x => g (f j x)) i l.
Proof.
  revert i; induction l as [|x l IH]; intros i; simpl; [reflexivity|].
  rewrite IH. reflexivity.
Qed.

Lemma mapi_from_ext {A B : Type} (f g : nat -> A -> B) (i : nat) (l : list A) :
  (forall j x, f j x = g j x) -> mapi_from f i l = mapi_from g i l.
Proof.
  intros H. revert i; induction l as [|x l IH]; intros i; simpl; [reflexivity|].
  rewrite H, IH. reflexivity.
Qed.

Lemma mapi_from_map {A B : Type} (f : A -> B) (i : nat) (l : list A) :
  mapi_from (fun _ x => f x) i l = map f l.
Proof.
  revert i; induction l as [|x l IH]; intros i; simpl; [reflexivity|].
  rewrite IH. reflexivity.
Qed.

Lemma mapi_from_In {A B : Type} (f : nat -> A -> B) (i : nat) (l : list A) (y : B) :
  In y (mapi_from f i l) -> exists j x, In x l /\ y = f j x.
Proof.
  revert i; induction l as [|x l IH]; intros i; simpl; [contradiction|].
  intros [<- | H].
  - exists i, x. auto.
  - destruct (IH _ H) as (j & x' & Hin & ->). exists j, x'. auto.
Qed.

Lemma mapi_from_Forall {A B : Type} (P : B -> Prop) (f : nat -> A -> B)
      (i : nat) (l : list A) :
  (forall j x, In x l -> P (f j x)) -> Forall P (mapi_from f i l).
Proof.
  intros H. apply Forall_forall. intros y Hy.
  destruct (mapi_from_In f i l y Hy) as (j & x & Hin & ->). apply H, Hin.
Qed.

(** *** The tracking loop *)

Lemma trackLoop_spec (e : Display) (p : PaddingInfo) (dets : list Detection)
      (st : LoopState) :
  let st' := fold_left (trackOne e p) dets st in
  let start := List.length (tracked st) in
  loop_previous st' = loop_previous st
  /\ tracked st' = tracked st ++ mapi_from (assign e p (loop_previous st)) start dets
  /\ processedIds st'
     = processedIds st ++ mapi_from (assignedId e (loop_previous st)) start dets.
Proof.
  revert st; induction dets as [|d dets IH]; intros st; simpl.
  - rewrite !app_nil_r. auto.
  - destruct (IH (trackOne e p st d)) as (H1 & H2 & H3).
    rewrite H1, H2, H3. cbn [trackOne tracked processedIds loop_previous].
    rewrite length_app, Nat.add_1_r, <- !app_assoc. simpl. auto.
Qed.

Lemma updateDetectionBoxes_map (e : Display) (dets : list Detection)
      (p : PaddingInfo) (prev : list TrackRecord) :
  detections (fst (updateDetectionBoxes e dets p prev)) = mapi (assign e p prev) dets
  /\ snd (updateDetectionBoxes e dets p prev)
     = map snapshot (mapi (assign e p prev) dets).
Proof.
  unfold updateDetectionBoxes; simpl.
  destruct (trackLoop_spec e p dets (mkLoopState prev [] 0 [])) as (_ & H & _).
  simpl in H. rewrite H. auto.
Qed.

Lemma findMatchingDetection_In (d : Detection) (prev : list TrackRecord) (r : TrackRecord) :
  findMatchingDetection d prev = Some r -> In r prev.
Proof.
  unfold findMatchingDetection. destruct prev as [|r0 prev']; [discriminate|].
  set (l := r0 :: prev').
  destruct (id d) as [i|].
  - destruct (truthy (VString i)).
    + destruct (find (fun p => (prev_id p =? i)%string) l) eqn:E.
      * intros H; injection H as <-. apply (find_some _ _ E).
      * intros H. apply (find_some _ _ H).
    + intros H. apply (find_some _ _ H).
  - intros H. apply (find_some _ _ H).
Qed.

Lemma findMatchingDetection_fresh (b : Box) (s : Q) (c : Z) (n : string)
      (prev : list TrackRecord) :
  findMatchingDetection (newDetection b s c n) prev
  = find (similar (newDetection b s c n)) prev.
Proof. destruct prev; reflexivity. Qed.

Lemma snapshot_assign (e : Display) (p : PaddingInfo) (prev : list TrackRecord)
      (i : nat) (d : Detection) :
  snapshot (assign e p prev i d)
  = {| prev_id := assignedId e prev i d; prev_class := class d; prev_box := box d |}.
Proof.
  unfold snapshot; simpl. f_equal.
  - destruct (assignedId e prev i d) eqn:E; reflexivity.
  - destruct (class d =? 0)%Z eqn:E; [|reflexivity].
    apply Z.eqb_eq in E. congruence.
Qed.

Lemma assignedId_prefix (e : Display) (prev : list TrackRecord) (i : nat)
      (b : Box) (s : Q) (c : Z) (n : string) :
  WellFormed prev ->
  HasClassPrefix c (assignedId e prev i (newDetection b s c n)).
Proof.
  intros Hwf. unfold assignedId. rewrite findMatchingDetection_fresh.
  destruct (find (similar (newDetection b s c n)) prev) as [m|] eqn:E.
  - apply find_some in E. destruct E as [Hin Hsim].
    unfold similar in Hsim. apply andb_true_iff in Hsim. destruct Hsim as [Hc _].
    apply Z.eqb_eq in Hc. simpl in Hc. rewrite <- Hc.
    unfold WellFormed in Hwf. rewrite Forall_forall in Hwf. apply Hwf, Hin.
  - apply (freshId_prefix (Date_now e i) (newDetection b s c n)).
Qed.

Lemma Reachable_WellFormed (prev : list TrackRecord) :
  Reachable prev -> WellFormed prev.
Proof.
  induction 1 as [|e p raw prev Hr IH].
  - constructor.
  - destruct (updateDetectionBoxes_map e
                (map (fun '(b, s, c, n) => newDetection b s c n) raw) p prev)
      as [_ ->].
    unfold WellFormed, mapi. rewrite map_mapi_from.
    apply mapi_from_Forall. intros j d Hd. apply in_map_iff in Hd.
    destruct Hd as [[[[b s] c] n] [<- _]].
    rewrite snapshot_assign. simpl. apply assignedId_prefix, IH.
Qed.

(** *** Two consecutive cycles with one object *)

Lemma single_cycle (e : Display) (p : PaddingInfo) (prev : list TrackRecord)
      (b : Box) (s : Q) (c : Z) (n : string) :
  let d := newDetection b s c n in
  let r := updateDetectionBoxes e [d] p prev in
  map id (detections (fst r)) = [Some (assignedId e prev 0 d)]
  /\ snd r = [{| prev_id := assignedId e prev 0 d; prev_class := c; prev_box := b |}].
Proof.
  intros d r. subst r.
  destruct (updateDetectionBoxes_map e [d] p prev) as [-> ->].
  simpl. rewrite snapshot_assign. auto.
Qed.

(** C4. Take any state of the tracker a session can reach and two
    consecutive cycles, each with one freshly detected object. If the class
    is the same and the box's top-left corner moved by less than 0.15 in
    both coordinates, the second cycle gives the detection the id of the
    first. If the class differs (whatever the position, in particular the
    same one), the second cycle gives it a freshly made id, which is
    different from the id of the first cycle. *)
Theorem tracker_stability (e1 e2 : Display) (p1 p2 : PaddingInfo)
        (prev0 : list TrackRecord)
        (b1 b2 : Box) (s1 s2 : Q) (c1 c2 : Z) (n1 n2 : string) :
  Reachable prev0 ->
  let d1 := newDetection b1 s1 c1 n1 in
  let d2 := newDetection b2 s2 c2 n2 in
  let r1 := updateDetectionBoxes e1 [d1] p1 prev0 in
  let r2 := updateDetectionBoxes e2 [d2] p2 (snd r1) in
  (c2 = c1 ->
   Qabs (bx1 b2 - bx1 b1) < 15 # 100 ->
   Qabs (by1 b2 - by1 b1) < 15 # 100 ->
   map id (detections (fst r2)) = map id (detections (fst r1)))
  /\ (c2 <> c1 ->
      exists i1,
        map id (detections (fst r1)) = [Some i1]
        /\ map id (detections (fst r2)) = [Some (freshId (Date_now e2 0) d2)]
        /\ freshId (Date_now e2 0) d2 <> i1).
Proof.
  intros Hreach d1 d2 r1 r2.
  destruct (single_cycle e1 p1 prev0 b1 s1 c1 n1) as [Hid1 Hprev1].
  fold d1 in Hid1, Hprev1. fold r1 in Hid1, Hprev1.
  destruct (single_cycle e2 p2 (snd r1) b2 s2 c2 n2) as [Hid2 _].
  fold d2 in Hid2. fold r2 in Hid2.
  rewrite Hid1, Hid2, Hprev1. split.
  - intros -> Hx Hy. do 2 f_equal.
    unfold assignedId at 1. unfold d2. rewrite findMatchingDetection_fresh.
    apply SchedulerFacts.Qltb_lt in Hx. apply SchedulerFacts.Qltb_lt in Hy.
    cbn [find]. unfold similar, matchThreshold.
    cbn [prev_class prev_box class box newDetection].
    rewrite Z.eqb_refl, Hx, Hy. reflexivity.
  - intros Hc. exists (assignedId e1 prev0 0 d1).
    assert (Hfresh : assignedId e2
              [{| prev_id := assignedId e1 prev0 0 d1; prev_class := c1; prev_box := b1 |}]
              0 d2 = freshId (Date_now e2 0) d2).
    { unfold assignedId at 1. unfold d2. rewrite findMatchingDetection_fresh.
      cbn [find]. unfold similar.
      cbn [prev_class prev_box class box newDetection].
      assert (E : (c1 =? c2)%Z = false) by (apply Z.eqb_neq; congruence).
      rewrite E. reflexivity. }
    rewrite Hfresh. repeat split.
    intros Heq.
    apply Hc. apply (HasClassPrefix_inj c2 c1 (freshId (Date_now e2 0) d2)).
    + apply (freshId_prefix (Date_now e2 0) d2).
    + rewrite Heq. apply assignedId_prefix, Reachable_WellFormed, Hreach.
Qed.

(** A car and then a car 0.1 further right: same id; a car and then a
    truck at the same place: a different id. *)
Lemma tracker_stability_witness :
  let e1 := mkDisplay "car" 1 1 (clockFrom 1700000000123) in
  let e2 := mkDisplay "car" 1 1 (clockFrom 1700000000323) in
  let p := paddingInfo 720 1280 in
  let car1 := newDetection (mkBox 100 200 180 260) (82 # 100) 2 "car" in
  let car2 := newDetection (mkBox (1001 # 10) 200 180 260) (80 # 100) 2 "car" in
  let truck := newDetection (mkBox 100 200 180 260) (80 # 100) 7 "truck" in
  let r1 := updateDetectionBoxes e1 [car1] p [] in
  map id (detections (fst (updateDetectionBoxes e2 [car2] p (snd r1))))
    = map id (detections (fst r1))
  /\ exists i1,
      map id (detections (fst r1)) = [Some i1]
      /\ map id (detections (fst (updateDetectionBoxes e2 [truck] p (snd r1))))
         = [Some (freshId (Date_now e2 0) truck)]
      /\ freshId (Date_now e2 0) truck <> i1.
Proof.
  intros e1 e2 p car1 car2 truck r1. split.
  - apply (tracker_stability e1 e2 p p [] (mkBox 100 200 180 260)
             (mkBox (1001 # 10) 200 180 260) (82 # 100) (80 # 100) 2 2 "car" "car"
             Reachable_start);
      reflexivity.
  - apply (tracker_stability e1 e2 p p [] (mkBox 100 200 180 260)
             (mkBox 100 200 180 260) (82 # 100) (80 # 100) 2 7 "car" "truck"
             Reachable_start).
    discriminate.
Defined.

(** *** Matching does not consume records *)

(** C10. The tracking loop hands every detection the same, complete list of
    previous records: after the loop the list is what it was before, each
    detection has been matched against all of it, a match is one of its
    entries, and box, class, score and name of the detections are
    unchanged. A matched record stays available, so two different
    detections of one cycle can both take the id of the same previous
    record, as the two boxes below do. *)
Theorem findMatchingDetection_does_not_consume :
  (forall e p prev dets,
      let st := fold_left (trackOne e p) dets (mkLoopState prev [] 0 []) in
      loop_previous st = prev
      /\ tracked st = mapi (assign e p prev) dets
      /\ map box (tracked st) = map box dets
      /\ map class (tracked st) = map class dets
      /\ map score (tracked st) = map score dets
      /\ map className (tracked st) = map className dets)
  /\ (forall d prev,
         match findMatchingDetection d prev with
         | Some r => In r prev
         | None => True
         end)
  /\ (let e := mkDisplay "car" 1 1 (clockFrom 1700000000323) in
      let p := paddingInfo 720 1280 in
      let old := mkTrackRecord "2_10000_20000_123" 2 (mkBox 100 200 180 260) in
      let dA := newDetection (mkBox (1001 # 10) 200 180 260) (80 # 100) 2 "car" in
      let dB := newDetection (mkBox (999 # 10) (2001 # 10) 300 400) (60 # 100) 2 "car" in
      dA <> dB
      /\ findMatchingDetection dA [old] = Some old
      /\ findMatchingDetection dB [old] = Some old
      /\ map id (detections (fst (updateDetectionBoxes e [dA; dB] p [old])))
         = [Some "2_10000_20000_123"%string; Some "2_10000_20000_123"%string]
      /\ ~ NoDup (map id (detections (fst (updateDetectionBoxes e [dA; dB] p [old]))))).
Proof.
  split; [|split].
  - intros e p prev dets st.
    destruct (trackLoop_spec e p dets (mkLoopState prev [] 0 [])) as (H1 & H2 & _).
    fold st in H1, H2. simpl in H1, H2. rewrite H2.
    unfold mapi. rewrite !map_mapi_from. cbn [assign box class score className].
    rewrite !mapi_from_map.
    repeat split; try assumption; reflexivity.
  - intros d prev. destruct (findMatchingDetection d prev) as [r|] eqn:E.
    + apply (findMatchingDetection_In d prev r E).
    + exact I.
  - simpl. split; [discriminate|]. split; [reflexivity|]. split; [reflexivity|].
    split; [reflexivity|].
    intros Hnd. inversion Hnd as [|x l Hnin _]. apply Hnin. left. reflexivity.
Qed.

End TrackerFacts.

(** ** Suppression: the call against the reference algorithm *)

Module DetectorFacts.
Import Scheduler Geometry JS Tracker Detector.

(** With the thresholds in the positions the library reads them, the call
    is the library operation with IoU threshold 0.4 and score threshold
    0.45. *)
Lemma nms_thresholds (boxes : list NmsBox) (scores : list Q) :
  nms boxes scores = nonMaxSuppression boxes scores 100 (4 # 10) (45 # 100).
Proof. reflexivity. Qed.

(** *** What the call computes

    Indices are related to candidates through [nth]; on valid index lists the
    library operation, run on the boxes and scores of a candidate list, is the
    greedy algorithm of the reference with the two thresholds the call gives
    it. *)

Section IndexedSuppression.

Variable cands : list Candidate.

Local Abbreviation candAt := (Detector.candAt cands).
Local Abbreviation ofPair := (Detector.ofPair cands).
Local Abbreviation validPair := (Detector.validPair cands).
Local Abbreviation validIndex := (Detector.validIndex cands).

Lemma gather_valid (sel : list nat) :
  Forall validIndex sel -> gather cands sel = map candAt sel.
Proof.
  induction 1 as [|i sel Hi _ IH]; [reflexivity|].
  unfold gather in *. simpl. rewrite IH. unfold candAt.
  unfold validIndex in Hi.
  destruct (nth_error cands i) as [c|] eqn:E.
  - rewrite (nth_error_nth _ _ _ E). reflexivity.
  - apply nth_error_None in E. lia.
Qed.

Lemma box_at (i : nat) :
  nth i (map cand_box cands) defaultBox = cand_box (candAt i).
Proof. unfold candAt. apply (map_nth cand_box cands defaultCandidate i). Qed.

Lemma indexed_from (pre rest : list Candidate) :
  cands = pre ++ rest ->
  let l := combine (map cand_score rest) (seq (List.length pre) (List.length rest)) in
  map ofPair l = rest /\ Forall validPair l.
Proof.
  revert pre; induction rest as [|c rest IH]; intros pre Hc; simpl.
  - split; constructor.
  - assert (Hc' : cands = (pre ++ [c]) ++ rest) by (rewrite <- app_assoc; exact Hc).
    destruct (IH (pre ++ [c]) Hc') as [IH1 IH2].
    rewrite length_app in IH1, IH2. simpl in IH1, IH2.
    rewrite Nat.add_1_r in IH1, IH2.
    assert (Hn : nth (List.length pre) cands defaultCandidate = c).
    { rewrite Hc. apply nth_middle. }
    split.
    + f_equal; [exact Hn | exact IH1].
    + constructor; [|exact IH2]. split; simpl.
      * rewrite Hc, length_app. simpl. lia.
      * unfold Detector.candAt. rewrite Hn. reflexivity.
Qed.

Lemma indexed_cands :
  map ofPair (indexed (map cand_score cands)) = cands
  /\ Forall validPair (indexed (map cand_score cands)).
Proof.
  unfold indexed. rewrite length_map.
  apply (indexed_from [] cands). reflexivity.
Qed.

Lemma filter_pairs (f : Q -> bool) (l : list (Q * nat)) :
  Forall validPair l ->
  map ofPair (filter (fun p => f (fst p)) l)
  = filter (fun c => f (cand_score c)) (map ofPair l)
  /\ Forall validPair (filter (fun p => f (fst p)) l).
Proof.
  induction 1 as [|p l Hp _ [IH1 IH2]]; simpl; [split; constructor|].
  assert (E : cand_score (ofPair p) = fst p) by (destruct Hp as [_ ->]; reflexivity).
  rewrite E. destruct (f (fst p)); simpl.
  - rewrite IH1. split; [reflexivity | constructor; assumption].
  - split; assumption.
Qed.

Lemma insert_pairs (p : Q * nat) (l : list (Q * nat)) :
  validPair p -> Forall validPair l ->
  map ofPair (insertByScore p l) = insertCandidate (ofPair p) (map ofPair l)
  /\ Forall validPair (insertByScore p l).
Proof.
  intros Hp. induction 1 as [|d l Hd Hl [IH1 IH2]]; simpl.
  - split; [reflexivity | constructor; [exact Hp | constructor]].
  - assert (Ep : cand_score (ofPair p) = fst p) by (destruct Hp as [_ ->]; reflexivity).
    assert (Ed : cand_score (ofPair d) = fst d) by (destruct Hd as [_ ->]; reflexivity).
    rewrite Ep, Ed. destruct (Qltb (fst d) (fst p)); simpl.
    + split; [reflexivity|].
      constructor; [exact Hp | constructor; [exact Hd | exact Hl]].
    + rewrite IH1. split; [reflexivity | constructor; assumption].
Qed.

Lemma sort_pairs (l acc : list (Q * nat)) :
  Forall validPair l -> Forall validPair acc ->
  map ofPair (fold_left (fun a c => insertByScore c a) l acc)
  = fold_left (fun a c => insertCandidate c a) (map ofPair l) (map ofPair acc)
  /\ Forall validPair (fold_left (fun a c => insertByScore c a) l acc).
Proof.
  intros Hl; revert acc. induction Hl as [|p l Hp _ IH]; intros acc Hacc; simpl.
  - split; [reflexivity | exact Hacc].
  - destruct (insert_pairs p acc Hp Hacc) as [E Hv].
    rewrite <- E. apply IH, Hv.
Qed.

Lemma existsb_forallb_negb {A : Type} (f : A -> bool) (l : list A) :
  existsb f l = negb (forallb (fun x => negb (f x)) l).
Proof.
  induction l as [|x l IH]; simpl; [reflexivity|].
  rewrite IH. destruct (f x); reflexivity.
Qed.

Lemma forallb_of_map {A B : Type} (f : A -> B) (g : B -> bool) (l : list A) :
  forallb g (map f l) = forallb (fun x => g (f x)) l.
Proof. induction l as [|x l IH]; simpl; [reflexivity | rewrite IH; reflexivity]. Qed.

Lemma forallb_pointwise {A : Type} (f g : A -> bool) (l : list A) :
  (forall x, f x = g x) -> forallb f l = forallb g l.
Proof.
  intros H. induction l as [|x l IH]; simpl; [reflexivity|].
  rewrite H, IH. reflexivity.
Qed.

Lemma select_greedyKeep (maxOutputSize : nat) (limit : Q)
      (l : list (Q * nat)) (sel : list nat) :
  Forall validPair l -> Forall validIndex sel ->
  gather cands (select (map cand_box cands) maxOutputSize limit l sel)
  = greedyKeep maxOutputSize limit (map ofPair l) (map candAt sel).
Proof.
  intros Hl; revert sel. induction Hl as [|p l Hp _ IH]; intros sel Hsel; simpl.
  - apply gather_valid, Hsel.
  - rewrite length_map.
    destruct (List.length sel <? maxOutputSize)%nat eqn:E.
    + apply Nat.ltb_lt in E.
      assert (E' : (maxOutputSize <=? List.length sel)%nat = false)
        by (apply Nat.leb_gt; exact E).
      rewrite E'. rewrite existsb_forallb_negb, forallb_of_map.
      assert (Hf : forallb
                     (fun j => negb (Qle_bool limit
                        (intersectionOverUnion
                           (nth (snd p) (map cand_box cands) defaultBox)
                           (nth j (map cand_box cands) defaultBox)))) sel
                   = forallb
                       (fun j => Qltb
                          (intersectionOverUnion (cand_box (ofPair p))
                                                 (cand_box (candAt j))) limit) sel).
      { apply forallb_pointwise. intros j. rewrite !box_at. reflexivity. }
      rewrite Hf.
      match goal with |- context [negb ?b] => destruct b end; simpl.
      * rewrite IH.
        -- rewrite map_app. reflexivity.
        -- apply Forall_app. split; [exact Hsel|].
           constructor; [exact (proj1 Hp) | constructor].
      * apply IH, Hsel.
    + apply Nat.ltb_ge in E.
      assert (E' : (maxOutputSize <=? List.length sel)%nat = true)
        by (apply Nat.leb_le; exact E).
      rewrite E'. apply gather_valid, Hsel.
Qed.

(** On every candidate list the suppressor run by [processFrame] is the
    reference's greedy algorithm with score threshold 0.45 (exclusive) and
    IoU threshold 0.4, instead of 0.4 (inclusive) and 0.45. *)
Lemma suppress_thresholds_swapped :
  suppress cands
  = greedyKeep 100 (4 # 10)
      (stableSortDescending
         (filter (fun c => Qltb (45 # 100) (cand_score c)) cands))
      [].
Proof.
  unfold suppress, nms, nonMaxSuppression, sortByScore, stableSortDescending.
  destruct indexed_cands as [Hmap Hvalid].
  destruct (filter_pairs (fun s => Qltb iouThreshold s) _ Hvalid) as [Hf Hfv].
  destruct (sort_pairs _ [] Hfv (Forall_nil _)) as [Hs Hsv].
  rewrite (select_greedyKeep 100 confidenceThreshold _ [] Hsv (Forall_nil _)).
  rewrite Hs, Hf, Hmap. reflexivity.
Qed.

End IndexedSuppression.

(** *** The inner block of [processFrame] *)

(** The inner block either returns the formatted survivors of the
    suppression, and then the model's output had no or several anchors, or
    it throws, and then the output was rejected or had a single anchor. *)
Lemma postprocess_cases (names : nat -> option string)
      (outputs : option (list Anchor)) :
  (exists anchors,
      outputs = Some anchors /\ List.length anchors <> 1%nat
      /\ postprocess names outputs
         = Returns (map (format names) (suppress (decode anchors))))
  \/ (exists m,
         postprocess names outputs = Throws m
         /\ (outputs = None \/ exists a, outputs = Some [a])).
Proof.
  destruct outputs as [anchors|].
  - destruct anchors as [|a [|a' rest]].
    + left. exists []. repeat split. discriminate.
    + right. eexists. split; [reflexivity|]. right. exists a. reflexivity.
    + left. exists (a :: a' :: rest). repeat split. discriminate.
  - right. eexists. split; [reflexivity|]. left. reflexivity.
Qed.

(** C1. The suppressor that [processFrame] runs is not the reference
    algorithm (score at least 0.4, IoU below 0.45): on every candidate list it
    is the same greedy algorithm with the two thresholds exchanged, score
    above 0.45 and IoU below 0.4. A single candidate of score 0.42 is kept by
    the reference and dropped by the code; of two candidates of scores 0.9
    and 0.8 whose boxes overlap with IoU 5/12 (about 0.417) the reference
    keeps both and the code keeps one; and of two candidates far apart, of
    scores 0.9 and 0.42, the reference keeps both and the code keeps one. *)
Theorem suppress_differs_from_reference :
  (forall cands,
      suppress cands
      = greedyKeep 100 (4 # 10)
          (stableSortDescending
             (filter (fun c => Qltb (45 # 100) (cand_score c)) cands))
          [])
  /\ (let lone := mkCandidate (mkNmsBox 0 0 10 10) (42 # 100) 2 in
      let big := mkCandidate (mkNmsBox 0 0 10 10) (9 # 10) 2 in
      let wide := mkCandidate (mkNmsBox 0 0 10 24) (8 # 10) 2 in
      referenceSuppress [lone] = [lone]
      /\ suppress [lone] = []
      /\ intersectionOverUnion (cand_box big) (cand_box wide) == 5 # 12
      /\ referenceSuppress [big; wide] = [big; wide]
      /\ suppress [big; wide] = [big])
  /\ (let big := mkCandidate (mkNmsBox 0 0 10 10) (9 # 10) 2 in
      let faint := mkCandidate (mkNmsBox 100 100 110 110) (42 # 100) 2 in
      intersectionOverUnion (cand_box big) (cand_box faint) == 0
      /\ referenceSuppress [big; faint] = [big; faint]
      /\ suppress [big; faint] = [big]).
Proof.
  split; [exact suppress_thresholds_swapped|].
  vm_compute. repeat split; reflexivity.
Qed.

End DetectorFacts.

(** ** The state machine: proofs *)

Module PipelineFacts.
Import Scheduler Geometry Detector Pipeline.

(** The three ways through [detectionLoop]: not running, throttled, or a
    cycle started. *)
Ltac loop_cases timestamp s :=
  unfold detectionLoop, startsCycle;
  destruct (isDetectionRunning s); simpl; [|reflexivity];
  change (throttled timestamp (requestAnimationFrame s))
    with (throttled timestamp s);
  destruct (throttled timestamp s); reflexivity.

Lemma detectionLoop_inFlight (timestamp : Q) (s : State) :
  inFlight (detectionLoop timestamp s)
  = if startsCycle timestamp s then S (inFlight s) else inFlight s.
Proof.
  loop_cases timestamp s.
Qed.

Lemma startsCycle_counters (timestamp : Q) (frames flights : nat) (s : State) :
  startsCycle timestamp (set_counters frames flights s) = startsCycle timestamp s.
Proof. reflexivity. Qed.

Lemma throttled_lt (timestamp : Q) (s : State) :
  throttled timestamp s = true
  <-> timestamp - lastDetectionTime s < getDetectionInterval (frameTimings s).
Proof. unfold throttled. apply SchedulerFacts.Qltb_lt. Qed.

Lemma throttled_ge (timestamp : Q) (s : State) :
  throttled timestamp s = false
  <-> getDetectionInterval (frameTimings s) <= timestamp - lastDetectionTime s.
Proof.
  split.
  - intros H. apply Qnot_lt_le. intros Hlt.
    apply throttled_lt in Hlt. congruence.
  - intros H. destruct (throttled timestamp s) eqn:E; [|reflexivity].
    apply throttled_lt in E. lra.
Qed.

(** No event of the page records a timing: the window is empty in every
    state the page reaches, and the interval is the fallback of 200. *)
Lemma step_frameTimings (s : State) (ev : Event) :
  frameTimings (step s ev) = frameTimings s.
Proof.
  destruct ev as [m v| |h|t|env rx ry now]; simpl.
  - unfold startDetection. destruct m, v; reflexivity.
  - reflexivity.
  - unfold visibilitychange. destruct h; [reflexivity|].
    destruct (wasRunningBeforeHidden s); reflexivity.
  - destruct (animationFrames s); [reflexivity|].
    unfold detectionLoop; simpl.
    destruct (isDetectionRunning s); simpl; [|reflexivity].
    match goal with |- context [if ?c then _ else _] => destruct c end; reflexivity.
  - destruct (inFlight s); [reflexivity|].
    unfold resumeDetectionLoop.
    destruct (processFrame env) as [[ds pad]|msg]; [|reflexivity].
    match goal with |- context [Tracker.updateDetectionBoxes ?a ?b ?c ?d] =>
      destruct (Tracker.updateDetectionBoxes a b c d) end.
    reflexivity.
Qed.

Lemma run_frameTimings (trace : list Event) (s : State) :
  frameTimings (run s trace) = frameTimings s.
Proof.
  unfold run. revert s; induction trace as [|ev trace IH]; intros s; simpl.
  - reflexivity.
  - rewrite IH. apply step_frameTimings.
Qed.

(** *** The tracker inside the session *)

(** The detections [processFrame] returns are fresh: none carries an id. *)
Lemma processFrame_fresh (env : FrameEnv) (dets : list Tracker.Detection)
      (pad : PaddingInfo) :
  processFrame env = Returns (dets, pad) ->
  exists raw,
    dets = map (fun '(b, s, c, n) => Tracker.newDetection b s c n) raw.
Proof.
  unfold processFrame.
  destruct (modelLoaded env); simpl; [|discriminate].
  destruct (videoElement env) as [[[h w]|msg]|]; try discriminate.
  destruct (execute env) as [outputs|msg]; [|discriminate].
  intros H. injection H as <- _.
  destruct (DetectorFacts.postprocess_cases (classNames env) outputs)
    as [(anchors & _ & _ & ->) | (m & -> & _)].
  - generalize (suppress (decode anchors)). intros kept.
    exists (map (fun c => (mkBox (nx1 (cand_box c)) (ny1 (cand_box c))
                                 (nx2 (cand_box c)) (ny2 (cand_box c)),
                           cand_score c, Z.of_nat (cand_class c),
                           classNameOf (classNames env) (cand_class c))) kept).
    rewrite map_map. reflexivity.
  - exists []. reflexivity.
Qed.

Lemma step_Reachable (s : State) (ev : Event) :
  Tracker.Reachable (previousDetections s) ->
  Tracker.Reachable (previousDetections (step s ev)).
Proof.
  intros Hr. destruct ev as [m v| |h|t|env rx ry now]; simpl.
  - unfold startDetection. destruct m, v; simpl; try exact Hr. constructor.
  - constructor.
  - unfold visibilitychange. destruct h; [exact Hr|].
    destruct (wasRunningBeforeHidden s); exact Hr.
  - destruct (animationFrames s); [exact Hr|].
    unfold detectionLoop; simpl.
    destruct (isDetectionRunning s); simpl; [|exact Hr].
    match goal with |- context [if ?c then _ else _] => destruct c end; exact Hr.
  - destruct (inFlight s); [exact Hr|].
    unfold resumeDetectionLoop.
    destruct (processFrame env) as [[ds pad]|msg] eqn:E; [|exact Hr].
    destruct (processFrame_fresh env ds pad E) as [raw ->].
    match goal with |- context [Tracker.updateDetectionBoxes ?a ?b ?c ?d] =>
      pose proof (Tracker.Reachable_cycle a c raw d Hr) as Hc;
      destruct (Tracker.updateDetectionBoxes a b c d) end.
    exact Hc.
Qed.

(** The tracker state of every session is one of the reachable ones. *)
Lemma run_Reachable (kw : string) (trace : list Event) :
  Tracker.Reachable (previousDetections (run (initial kw) trace)).
Proof.
  unfold run.
  assert (G : forall s, Tracker.Reachable (previousDetections s) ->
                        Tracker.Reachable (previousDetections (fold_left step trace s))).
  { induction trace as [|ev trace IH]; intros s Hs; simpl; [exact Hs|].
    apply IH, step_Reachable, Hs. }
  apply G. constructor.
Qed.

(** *** Overlapping cycles *)

(** C2, as stated, fails: after [overlapping] two cycles are in flight, the
    second started by a tick that found one pending. *)
Lemma single_flight_violated :
  let s1 := run (initial "car") [Start true true; AnimationFrame 1000] in
  inFlight s1 = 1%nat
  /\ startsCycle 1250 s1 = true
  /\ inFlight (run (initial "car") overlapping) = 2%nat
  /\ ~ (forall trace, (inFlight (run (initial "car") trace) <= 1)%nat).
Proof.
  split; [reflexivity|]. split; [reflexivity|]. split; [reflexivity|].
  intros H. specialize (H overlapping).
  change (inFlight (run (initial "car") overlapping)) with 2%nat in H. lia.
Qed.

(** A running session with a queued frame callback, an empty timing window
    and the last cycle at least 200 ms before [t]. *)
Lemma tick_starts_cycle (t : Q) (s : State) :
  isDetectionRunning s = true ->
  (0 < animationFrames s)%nat ->
  frameTimings s = [] ->
  lastDetectionTime s + 200 <= t ->
  let s' := step s (AnimationFrame t) in
  isDetectionRunning s' = true
  /\ (0 < animationFrames s')%nat
  /\ frameTimings s' = []
  /\ lastDetectionTime s' + 200 <= t + 200
  /\ inFlight s' = S (inFlight s).
Proof.
  intros Hrun Hq Hw Hlast. simpl.
  destruct (animationFrames s) as [|n] eqn:En; [lia|].
  unfold detectionLoop. simpl. rewrite Hrun. simpl.
  assert (E : throttled t (requestAnimationFrame (set_counters n (inFlight s) s))
              = false).
  { apply throttled_ge. simpl. rewrite Hw.
    change (getDetectionInterval []) with 200. lra. }
  rewrite E. simpl. rewrite Hrun, Hw. repeat split; try lia. lra.
Qed.

Lemma ticks_all_start (n : nat) (t : Q) (s : State) :
  isDetectionRunning s = true ->
  (0 < animationFrames s)%nat ->
  frameTimings s = [] ->
  lastDetectionTime s + 200 <= t ->
  inFlight (run s (ticksFrom t n)) = (inFlight s + n)%nat.
Proof.
  revert t s; induction n as [|n IH]; intros t s Hrun Hq Hw Hlast.
  - unfold run. simpl. lia.
  - destruct (tick_starts_cycle t s Hrun Hq Hw Hlast) as (H1 & H2 & H3 & H4 & H5).
    unfold run. cbn [ticksFrom fold_left].
    fold (run (step s (AnimationFrame t)) (ticksFrom (t + 200) n)).
    rewrite (IH (t + 200) _ H1 H2 H3 H4), H5. lia.
Qed.

(** There is no bound on the number of cycles in flight: [n] ticks 200 ms
    apart, none of whose cycles has settled, leave [n] cycles pending. *)
Lemma inFlight_unbounded (kw : string) (n : nat) :
  inFlight (run (initial kw) (Start true true :: ticksFrom 1000 n)) = n.
Proof.
  unfold run. cbn [fold_left].
  fold (run (step (initial kw) (Start true true)) (ticksFrom 1000 n)).
  rewrite ticks_all_start; try reflexivity.
  - simpl. lia.
  - simpl. lra.
Qed.

(** C2, amended. A tick starts a cycle exactly when detection is running
    and the throttle lets it through; the number of cycles in flight is not
    consulted, and each such tick adds one to it. The spacing of cycle
    starts is the throttle's alone: the tick that starts a cycle sets
    [lastDetectionTime] to its timestamp. Cycles that outlast the interval
    therefore pile up: [n] ticks 200 ms apart leave [n] cycles in flight. *)
Theorem cycles_gated_by_throttle_only (timestamp : Q) (s : State) :
  startsCycle timestamp s
    = isDetectionRunning s
      && negb (Qltb (timestamp - lastDetectionTime s)
                            (getDetectionInterval (frameTimings s)))
  /\ (forall frames flights,
         startsCycle timestamp (set_counters frames flights s)
         = startsCycle timestamp s)
  /\ inFlight (detectionLoop timestamp s)
     = (if startsCycle timestamp s then S (inFlight s) else inFlight s)
  /\ lastDetectionTime (detectionLoop timestamp s)
     = (if startsCycle timestamp s then timestamp else lastDetectionTime s)
  /\ (forall kw n,
         inFlight (run (initial kw) (Start true true :: ticksFrom 1000 n)) = n).
Proof.
  split; [reflexivity|]. split; [reflexivity|].
  split; [apply detectionLoop_inFlight|].
  split; [|exact inFlight_unbounded].
  loop_cases timestamp s.
Qed.

(** The frame with one car goes through the whole of [processFrame]: one
    detection, box in [x1, y1, x2, y2] order, named by the class table; the
    cycle then gives it an id and stores its snapshot. *)
Example processFrame_carFrame :
  match processFrame carFrame with
  | Returns ([d], p) =>
      Box_eq (Tracker.box d) (mkBox 280 290 360 350)
      /\ Tracker.score d == 82 # 100
      /\ Tracker.class d = 2%Z
      /\ Tracker.className d = "car"%string
      /\ Tracker.id d = None
      /\ p = paddingInfo 720 1280
  | _ => False
  end
  /\ map Tracker.prev_id (previousDetections hiddenSession)
     = ["2_28000_29000_123"%string]
  /\ isDetectionRunning hiddenSession = false
  /\ wasRunningBeforeHidden hiddenSession = true.
Proof. vm_compute. repeat split; reflexivity. Qed.

(** *** Errors of a cycle *)

Lemma stopped_loop_exits (timestamp : Q) (s : State) :
  isDetectionRunning s = false ->
  detectionLoop timestamp s = s /\ startsCycle timestamp s = false.
Proof.
  intros H. unfold detectionLoop, startsCycle. rewrite H. auto.
Qed.

Lemma processFrame_throws (env : FrameEnv) (err : string) :
  modelLoaded env = true ->
  (videoElement env = Some (Throws err)
   \/ exists h w, videoElement env = Some (Returns (h, w))
                  /\ execute env = Throws err) ->
  processFrame env = Throws err.
Proof.
  intros Hm [Hv | (h & w & Hv & He)]; unfold processFrame; rewrite Hm, Hv;
    [|rewrite He]; reflexivity.
Qed.

Lemma processFrame_decode_failure (env : FrameEnv) (h w : Z)
      (outputs : option (list Anchor)) (m : string) :
  modelLoaded env = true ->
  videoElement env = Some (Returns (h, w)) ->
  execute env = Returns outputs ->
  postprocess (classNames env) outputs = Throws m ->
  processFrame env = Returns ([], paddingInfo h w).
Proof.
  intros Hm Hv He Hp. unfold processFrame. rewrite Hm, Hv, He, Hp. reflexivity.
Qed.




(** *** Stop *)

Lemma updateDetectionBoxes_fresh_ids (e : Tracker.Display)
      (dets : list Tracker.Detection) (p : PaddingInfo) :
  map Tracker.id
      (Tracker.detections (fst (Tracker.updateDetectionBoxes e dets p [])))
  = Tracker.mapi (fun i d => Some (Tracker.freshId (Tracker.Date_now e i) d)) dets.
Proof.
  destruct (TrackerFacts.updateDetectionBoxes_map e dets p []) as [-> _].
  unfold Tracker.mapi. rewrite TrackerFacts.map_mapi_from.
  apply TrackerFacts.mapi_from_ext. intros j d. reflexivity.
Qed.

Lemma step_keeps_empty_tracker (s : State) (ev : Event) :
  isSettle ev = false ->
  previousDetections s = [] -> previousDetections (step s ev) = [].
Proof.
  intros Hev Hs. destruct ev as [m v| |h|t|env rx ry now]; simpl.
  - unfold startDetection. destruct m, v; simpl; auto.
  - reflexivity.
  - unfold visibilitychange. destruct h; [exact Hs|].
    destruct (wasRunningBeforeHidden s); exact Hs.
  - destruct (animationFrames s); [exact Hs|].
    unfold detectionLoop; simpl.
    destruct (isDetectionRunning s); simpl; [|exact Hs].
    match goal with |- context [if ?c then _ else _] => destruct c end; exact Hs.
  - discriminate Hev.
Qed.

Lemma run_keeps_empty_tracker (rest : list Event) (s : State) :
  previousDetections s = [] ->
  previousDetections (run s (filter (fun ev => negb (isSettle ev)) rest)) = [].
Proof.
  unfold run. revert s; induction rest as [|ev rest IH]; intros s Hs; simpl.
  - exact Hs.
  - destruct (isSettle ev) eqn:E; simpl; [apply IH, Hs|].
    apply IH, step_keeps_empty_tracker; assumption.
Qed.


(** *** Resume after the tab was hidden *)

(** C8, as stated, fails: the tab becomes visible again at 10000 ms and the
    first tick, 16 ms later, starts a cycle, although the interval is
    200 ms. *)
Lemma resume_runs_cycle_at_once :
  let resumed := step hiddenSession (VisibilityChange false) in
  getDetectionInterval (frameTimings resumed) = 200
  /\ inFlight resumed = 0%nat
  /\ startsCycle 10016 resumed = true
  /\ inFlight (step resumed (AnimationFrame 10016)) = 1%nat
  /\ ~ (forall (s : State) (resumeTime timestamp : Q),
           wasRunningBeforeHidden s = true ->
           resumeTime <= timestamp ->
           timestamp - resumeTime < getDetectionInterval (frameTimings s) ->
           startsCycle timestamp (visibilitychange false s) = false).
Proof.
  split; [reflexivity|]. split; [reflexivity|]. split; [reflexivity|].
  split; [reflexivity|].
  intros H.
  specialize (H hiddenSession 10000 10016 eq_refl).
  assert (H1 : 10000 <= 10016) by (vm_compute; discriminate).
  assert (H2 : 10016 - 10000 < getDetectionInterval (frameTimings hiddenSession))
    by (vm_compute; reflexivity).
  specialize (H H1 H2). vm_compute in H. discriminate H.
Qed.

(** C8, amended. On becoming visible again after a pause, the handler sets
    the running flag, resets [lastDetectionTime] to 0 and asks for a frame;
    a tick whose timestamp is at least the interval then starts a cycle at
    once, however short the time since the resume. Throttling sets in
    after that cycle: a further tick less than the interval later starts
    none. *)
Theorem resume_resets_clock_to_zero (s : State) (timestamp later : Q) :
  wasRunningBeforeHidden s = true ->
  getDetectionInterval (frameTimings s) <= timestamp ->
  later - timestamp < getDetectionInterval (frameTimings s) ->
  let resumed := visibilitychange false s in
  isDetectionRunning resumed = true
  /\ lastDetectionTime resumed = 0
  /\ animationFrames resumed = S (animationFrames s)
  /\ startsCycle timestamp resumed = true
  /\ inFlight (detectionLoop timestamp resumed) = S (inFlight s)
  /\ startsCycle later (detectionLoop timestamp resumed) = false.
Proof.
  intros Hw Hge Hlt resumed.
  assert (Hr : resumed
               = requestAnimationFrame (set_lastDetectionTime 0 (set_running true s))).
  { unfold resumed, visibilitychange. rewrite Hw. reflexivity. }
  assert (Hstart : startsCycle timestamp resumed = true).
  { rewrite Hr. unfold startsCycle. simpl.
    assert (E : throttled timestamp
                  (requestAnimationFrame (set_lastDetectionTime 0 (set_running true s)))
                = false).
    { apply throttled_ge. simpl. lra. }
    rewrite E. reflexivity. }
  split; [rewrite Hr; reflexivity|]. split; [rewrite Hr; reflexivity|].
  split; [rewrite Hr; reflexivity|]. split; [exact Hstart|].
  split.
  - rewrite detectionLoop_inFlight, Hstart, Hr. reflexivity.
  - unfold startsCycle in Hstart. apply andb_true_iff in Hstart.
    destruct Hstart as [Hrun Hthr]. apply negb_true_iff in Hthr.
    unfold detectionLoop. rewrite Hrun. simpl.
    change (throttled timestamp (requestAnimationFrame resumed))
      with (throttled timestamp resumed).
    rewrite Hthr. unfold startsCycle. simpl.
    assert (E : throttled later
                  (awaitProcessFrame
                     (set_lastDetectionTime timestamp (requestAnimationFrame resumed)))
                = true).
    { apply throttled_lt. simpl. rewrite Hr. simpl. exact Hlt. }
    rewrite E. apply andb_false_r.
Qed.

Lemma resume_resets_clock_to_zero_witness :
  let resumed := visibilitychange false hiddenSession in
  isDetectionRunning resumed = true
  /\ lastDetectionTime resumed = 0
  /\ animationFrames resumed = S (animationFrames hiddenSession)
  /\ startsCycle 10016 resumed = true
  /\ inFlight (detectionLoop 10016 resumed) = S (inFlight hiddenSession)
  /\ startsCycle 10033 (detectionLoop 10016 resumed) = false.
Proof.
  apply (resume_resets_clock_to_zero hiddenSession 10016 10033).
  - reflexivity.
  - vm_compute. discriminate.
  - vm_compute. reflexivity.
Defined.

End PipelineFacts.

(** ** Scheduler and letterbox: bounds *)

Module BoundsFacts.
Import Scheduler Geometry.

Lemma clamp_bounds (lo hi x : Q) : lo <= hi -> lo <= clamp lo hi x <= hi.
Proof.
  intros H. unfold clamp.
  destruct (Qlt_le_dec x lo); [lra|]. destruct (Qlt_le_dec hi x); lra.
Qed.

(** X1. Whatever the timing window holds (any number of samples, of any
    sign or size), the interval handed to the throttle lies between 0 and
    500 ms. *)
Theorem getDetectionInterval_bounds (frameTimings : list Q) :
  0 <= getDetectionInterval frameTimings <= 500.
Proof.
  unfold getDetectionInterval.
  destruct (5 <=? length frameTimings)%nat.
  - rewrite SchedulerFacts.Math_max_min_clamp. apply clamp_bounds. lra.
  - unfold DETECTION_INTERVAL. lra.
Qed.

Lemma recordFrameTiming_skipn (t : Q) (w : list Q) :
  (length w <= MAX_SAMPLES)%nat ->
  recordFrameTiming t w = skipn (length (w ++ [t]) - MAX_SAMPLES) (w ++ [t]).
Proof.
  intros Hw. unfold recordFrameTiming. rewrite length_app. simpl length.
  destruct (MAX_SAMPLES <? length w + 1)%nat eqn:E.
  - apply Nat.ltb_lt in E.
    replace (length w + 1 - MAX_SAMPLES)%nat with 1%nat by lia.
    destruct (w ++ [t]); reflexivity.
  - apply Nat.ltb_ge in E.
    replace (length w + 1 - MAX_SAMPLES)%nat with 0%nat by lia. reflexivity.
Qed.

Lemma skipn_app_le {A : Type} (k : nat) (l1 l2 : list A) :
  (k <= length l1)%nat -> skipn k l1 ++ l2 = skipn k (l1 ++ l2).
Proof.
  intros H. rewrite skipn_app.
  replace (k - length l1)%nat with 0%nat by lia. reflexivity.
Qed.

Lemma recordAll_from (ds w : list Q) :
  (length w <= MAX_SAMPLES)%nat ->
  fold_left (fun w t => recordFrameTiming t w) ds w
  = skipn (length (w ++ ds) - MAX_SAMPLES) (w ++ ds).
Proof.
  revert w; induction ds as [|d ds IH]; intros w Hw.
  - simpl. rewrite app_nil_r.
    replace (length w - MAX_SAMPLES)%nat with 0%nat by lia. reflexivity.
  - cbn [fold_left].
    rewrite IH by (apply SchedulerFacts.recordFrameTiming_length; exact Hw).
    rewrite (recordFrameTiming_skipn d w Hw).
    assert (Hlen : (length (w ++ [d]) - MAX_SAMPLES <= length (w ++ [d]))%nat) by lia.
    set (k := (length (w ++ [d]) - MAX_SAMPLES)%nat) in *.
    rewrite (skipn_app_le k (w ++ [d]) ds Hlen).
    rewrite skipn_skipn, length_skipn, <- app_assoc. simpl.
    f_equal. subst k. rewrite !length_app in *. simpl in *.
    unfold MAX_SAMPLES in *. lia.
Qed.

(** X2. After any sequence of recorded durations the window holds exactly
    the most recent ones, at most ten, oldest first: the recorded sequence
    without its first [n - 10] entries. *)
Theorem recordAll_keeps_last_ten (durations : list Q) :
  recordAll durations = skipn (length durations - 10) durations.
Proof.
  unfold recordAll. rewrite recordAll_from; [reflexivity|].
  unfold MAX_SAMPLES. simpl. lia.
Qed.

(** *** The letterbox *)

Lemma Math_round_bounds (x : Q) (n : Z) :
  0 <= x -> x <= inject_Z n -> (0 <= Math_round x <= n)%Z.
Proof.
  intros H0 Hn. unfold Math_round. split.
  - rewrite <- (Qfloor_Z 0). apply Qfloor_resp_le.
    change (inject_Z 0) with 0. lra.
  - assert (H : (Qfloor (x + (1 # 2)) <= Qfloor (inject_Z n + (1 # 2)))%Z)
      by (apply Qfloor_resp_le; lra).
    assert (H' : (Qfloor (inject_Z n + (1 # 2)) < n + 1)%Z).
    { rewrite Zlt_Qlt.
      apply Qle_lt_trans with (inject_Z n + (1 # 2)); [apply Qfloor_le|].
      rewrite inject_Z_plus. change (inject_Z 1) with 1. lra. }
    lia.
Qed.

Lemma Math_round_Z (n : Z) (x : Q) : x == inject_Z n -> Math_round x = n.
Proof.
  intros H. unfold Math_round. rewrite H.
  assert (H1 : (Qfloor (inject_Z n) <= Qfloor (inject_Z n + (1 # 2)))%Z)
    by (apply Qfloor_resp_le; lra).
  rewrite Qfloor_Z in H1.
  assert (H2 : (Qfloor (inject_Z n + (1 # 2)) < n + 1)%Z).
  { rewrite Zlt_Qlt.
    apply Qle_lt_trans with (inject_Z n + (1 # 2)); [apply Qfloor_le|].
    rewrite inject_Z_plus. change (inject_Z 1) with 1. lra. }
  lia.
Qed.

Lemma Math_floor_half (n : Z) : Math_floor (inject_Z n / 2) = (n / 2)%Z.
Proof. unfold Math_floor. rewrite (Zdiv_Qdiv n 2). reflexivity. Qed.

Lemma scale_cases (h w : Z) :
  (0 < w)%Z -> (0 < h)%Z ->
  let sc := scale (paddingInfo h w) in
  0 < sc
  /\ inject_Z w * sc <= 640 /\ inject_Z h * sc <= 640
  /\ (inject_Z w * sc == 640 \/ inject_Z h * sc == 640).
Proof.
  intros Hw Hh. unfold paddingInfo, letterbox; simpl.
  apply GeometryFacts.inject_Z_pos in Hw. apply GeometryFacts.inject_Z_pos in Hh.
  set (W := inject_Z w) in *. set (H := inject_Z h) in *.
  change (inject_Z modelWidth) with 640. change (inject_Z modelHeight) with 640.
  assert (Ew : W * (640 / W) == 640) by (field; lra).
  assert (Eh : H * (640 / H) == 640) by (field; lra).
  assert (Pw : 0 < 640 / W) by (apply Qlt_shift_div_l; lra).
  assert (Ph : 0 < 640 / H) by (apply Qlt_shift_div_l; lra).
  unfold Math_min. destruct (Qle_bool (640 / W) (640 / H)) eqn:E.
  - apply Qle_bool_iff in E. repeat split; try lra.
    apply Qle_trans with (H * (640 / H)); [|lra].
    apply (proj2 (Qmult_le_l _ _ _ Hh)). exact E.
  - assert (E' : 640 / H <= 640 / W).
    { apply Qlt_le_weak, Qnot_le_lt. intros C.
      apply Qle_bool_iff in C. congruence. }
    repeat split; try lra.
    apply Qle_trans with (W * (640 / W)); [|lra].
    apply (proj2 (Qmult_le_l _ _ _ Hw)). exact E'.
Qed.

(** X3. For every frame of positive width and height the letterbox fits
    the model input: the resized image is at most 640 in both directions
    and exactly 640 in at least one; no padding is negative; the bottom and
    right paddings are the top and left paddings or one more; image and
    paddings add up to 640 each way. *)
Theorem letterbox_fits (h w : Z) :
  (0 < w)%Z -> (0 < h)%Z ->
  let l := letterbox h w in
  (0 <= newWidth l <= 640)%Z /\ (0 <= newHeight l <= 640)%Z
  /\ (newWidth l = 640%Z \/ newHeight l = 640%Z)
  /\ (0 <= padTop (info l) <= padBottom l)%Z
  /\ (padBottom l <= padTop (info l) + 1)%Z
  /\ (0 <= padLeft (info l) <= padRight l)%Z
  /\ (padRight l <= padLeft (info l) + 1)%Z
  /\ (padTop (info l) + newHeight l + padBottom l = 640)%Z
  /\ (padLeft (info l) + newWidth l + padRight l = 640)%Z.
Proof.
  intros Hw Hh l.
  destruct (scale_cases h w Hw Hh) as (Hs & Hlw & Hlh & Hone).
  pose proof (GeometryFacts.inject_Z_pos w Hw) as Pw.
  pose proof (GeometryFacts.inject_Z_pos h Hh) as Ph.
  set (sc := scale (paddingInfo h w)) in *.
  assert (Enw : newWidth l = Math_round (inject_Z w * sc)) by reflexivity.
  assert (Enh : newHeight l = Math_round (inject_Z h * sc)) by reflexivity.
  assert (Bw : (0 <= newWidth l <= 640)%Z).
  { rewrite Enw. apply Math_round_bounds; [|exact Hlw].
    apply Qmult_le_0_compat; lra. }
  assert (Bh : (0 <= newHeight l <= 640)%Z).
  { rewrite Enh. apply Math_round_bounds; [|exact Hlh].
    apply Qmult_le_0_compat; lra. }
  assert (Et : padTop (info l) = ((640 - newHeight l) / 2)%Z)
    by (apply Math_floor_half).
  assert (El : padLeft (info l) = ((640 - newWidth l) / 2)%Z)
    by (apply Math_floor_half).
  assert (Eb : padBottom l = (640 - newHeight l - padTop (info l))%Z) by reflexivity.
  assert (Er : padRight l = (640 - newWidth l - padLeft (info l))%Z) by reflexivity.
  assert (One : newWidth l = 640%Z \/ newHeight l = 640%Z).
  { destruct Hone as [E|E]; [left; rewrite Enw | right; rewrite Enh];
      apply Math_round_Z; exact E. }
  clearbody l. clear Enw Enh.
  repeat split; try tauto; try lia;
    rewrite ?Eb, ?Er, ?Et, ?El;
    try (apply Z.div_pos; lia);
    pose proof (Z.div_mod (640 - newHeight l) 2 ltac:(lia));
    pose proof (Z.mod_pos_bound (640 - newHeight l) 2 ltac:(lia));
    pose proof (Z.div_mod (640 - newWidth l) 2 ltac:(lia));
    pose proof (Z.mod_pos_bound (640 - newWidth l) 2 ltac:(lia));
    lia.
Qed.

Lemma letterbox_fits_witness :
  let l := letterbox 768 1366 in
  (0 <= newWidth l <= 640)%Z /\ (0 <= newHeight l <= 640)%Z
  /\ (newWidth l = 640%Z \/ newHeight l = 640%Z)
  /\ (0 <= padTop (info l) <= padBottom l)%Z
  /\ (padBottom l <= padTop (info l) + 1)%Z
  /\ (0 <= padLeft (info l) <= padRight l)%Z
  /\ (padRight l <= padLeft (info l) + 1)%Z
  /\ (padTop (info l) + newHeight l + padBottom l = 640)%Z
  /\ (padLeft (info l) + newWidth l + padRight l = 640)%Z.
Proof. apply (letterbox_fits 768 1366); reflexivity. Defined.

(** X4. For every frame of positive size, a box of the original frame that
    the letterbox places in model space comes out of the mapper as the same
    box scaled by the display ratios: its corner is multiplied by the ratios
    and so are its width and height. *)
Theorem toScreenBox_of_frame_box (h w : Z) (ratioX ratioY : Q) (b : Box) :
  (0 < w)%Z -> (0 < h)%Z ->
  let p := paddingInfo h w in
  let sb := toScreenBox p ratioX ratioY (toModelSpace p b) in
  sx1 sb == bx1 b * ratioX /\ sy1 sb == by1 b * ratioY
  /\ width sb == (bx2 b - bx1 b) * ratioX
  /\ height sb == (by2 b - by1 b) * ratioY.
Proof.
  intros Hw Hh p sb.
  assert (Hs : ~ scale p == 0).
  { pose proof (GeometryFacts.scale_pos h w Hw Hh) as H. fold p in H. lra. }
  unfold sb, toScreenBox, unpad, toModelSpace; simpl.
  repeat split; field; exact Hs.
Qed.

Lemma toScreenBox_of_frame_box_witness :
  let p := paddingInfo 720 1280 in
  let b := mkBox 100 50 300 200 in
  let sb := toScreenBox p (3 # 4) (3 # 4) (toModelSpace p b) in
  sx1 sb == bx1 b * (3 # 4) /\ sy1 sb == by1 b * (3 # 4)
  /\ width sb == (bx2 b - bx1 b) * (3 # 4)
  /\ height sb == (by2 b - by1 b) * (3 # 4).
Proof.
  apply (toScreenBox_of_frame_box 720 1280 (3 # 4) (3 # 4) (mkBox 100 50 300 200));
    reflexivity.
Defined.

End BoundsFacts.

(** ** The suppressor of [processFrame]: what its output looks like *)

Module SuppressionFacts.
Import Scheduler Geometry JS Tracker Detector.

(** [k] was kept before [c]: they overlap with IoU below [limit]. *)
Local Abbreviation apart limit :=
  (fun k c => intersectionOverUnion (cand_box c) (cand_box k) < limit).

(** [a] comes before [b] in descending score order. *)
Local Abbreviation scoreGe :=
  (fun a b => cand_score b <= cand_score a).

Lemma Qltb_false (a b : Q) : Qltb a b = false <-> b <= a.
Proof.
  unfold Qltb. rewrite negb_false_iff. apply Qle_bool_iff.
Qed.

Lemma insertCandidate_In (c x : Candidate) (l : list Candidate) :
  In x (insertCandidate c l) <-> x = c \/ In x l.
Proof.
  induction l as [|d l IH]; simpl.
  - intuition.
  - destruct (Qltb (cand_score d) (cand_score c)); simpl.
    + intuition.
    + rewrite IH. intuition.
Qed.

Lemma sort_In_acc (l acc : list Candidate) (x : Candidate) :
  In x (fold_left (fun a c => insertCandidate c a) l acc) <-> In x acc \/ In x l.
Proof.
  revert acc; induction l as [|c l IH]; intros acc; simpl.
  - intuition.
  - rewrite IH, insertCandidate_In. intuition.
Qed.

Lemma stableSortDescending_In (l : list Candidate) (x : Candidate) :
  In x (stableSortDescending l) <-> In x l.
Proof. unfold stableSortDescending. rewrite sort_In_acc. simpl. intuition. Qed.

Lemma insertCandidate_sorted (c : Candidate) (l : list Candidate) :
  StronglySorted scoreGe l -> StronglySorted scoreGe (insertCandidate c l).
Proof.
  induction 1 as [|d l Hs IH Hd]; simpl.
  - repeat constructor.
  - destruct (Qltb (cand_score d) (cand_score c)) eqn:E.
    + apply SchedulerFacts.Qltb_lt in E.
      constructor; [constructor; assumption|].
      constructor; [lra|].
      rewrite Forall_forall in *. intros y Hy. specialize (Hd y Hy).
      simpl in *. lra.
    + apply Qltb_false in E. constructor; [exact IH|].
      rewrite Forall_forall in *. intros y Hy.
      apply insertCandidate_In in Hy. destruct Hy as [->|Hy]; [exact E|].
      apply Hd, Hy.
Qed.

Lemma stableSortDescending_sorted (l : list Candidate) :
  StronglySorted scoreGe (stableSortDescending l).
Proof.
  unfold stableSortDescending.
  assert (G : forall acc, StronglySorted scoreGe acc ->
              StronglySorted scoreGe
                (fold_left (fun a c => insertCandidate c a) l acc)).
  { induction l as [|c l IH]; intros acc Hacc; simpl; [exact Hacc|].
    apply IH, insertCandidate_sorted, Hacc. }
  apply G. constructor.
Qed.

Lemma sorted_app_l {A : Type} (R : A -> A -> Prop) (l1 l2 : list A) :
  StronglySorted R (l1 ++ l2) -> StronglySorted R l1.
Proof.
  induction l1 as [|a l1 IH]; simpl; intros H; [constructor|].
  inversion H as [|? ? Hs Hf]; subst. constructor; [apply IH, Hs|].
  apply Forall_app in Hf. tauto.
Qed.

Lemma sorted_drop_middle {A : Type} (R : A -> A -> Prop) (l1 l2 : list A) (x : A) :
  StronglySorted R (l1 ++ x :: l2) -> StronglySorted R (l1 ++ l2).
Proof.
  induction l1 as [|a l1 IH]; simpl; intros H.
  - inversion H; assumption.
  - inversion H as [|? ? Hs Hf]; subst. constructor; [apply IH, Hs|].
    apply Forall_app in Hf. destruct Hf as [H1 H2].
    apply Forall_app. split; [exact H1|]. inversion H2; assumption.
Qed.

Lemma pairs_snoc {A : Type} (R : A -> A -> Prop) (l : list A) (c : A) :
  ForallOrdPairs R l -> Forall (fun k => R k c) l -> ForallOrdPairs R (l ++ [c]).
Proof.
  induction 1 as [|a l Ha Hl IH]; simpl; intros Hc.
  - repeat constructor.
  - inversion Hc; subst. constructor; [|apply IH; assumption].
    apply Forall_app. split; [exact Ha|]. constructor; [assumption|constructor].
Qed.

Lemma pairs_before {A : Type} (R : A -> A -> Prop) (l1 l2 : list A) (c : A) :
  ForallOrdPairs R (l1 ++ c :: l2) -> Forall (fun k => R k c) l1.
Proof.
  induction l1 as [|a l1 IH]; simpl; intros H; [constructor|].
  inversion H as [|? ? Ha Hl]; subst. constructor; [|apply IH, Hl].
  apply Forall_app in Ha. destruct Ha as [_ Ha]. inversion Ha; assumption.
Qed.

Lemma forallb_apart (limit : Q) (c : Candidate) (kept : list Candidate) :
  forallb (fun k => Qltb (intersectionOverUnion (cand_box c) (cand_box k)) limit) kept
  = true
  <-> Forall (fun k => apart limit k c) kept.
Proof.
  rewrite forallb_forall, Forall_forall. split; intros H k Hk.
  - apply SchedulerFacts.Qltb_lt, H, Hk.
  - apply SchedulerFacts.Qltb_lt, H, Hk.
Qed.

(** The four facts about the greedy pass. *)
Lemma greedyKeep_facts (maxDetections : nat) (limit : Q) (sorted kept : list Candidate) :
  (List.length kept <= maxDetections)%nat ->
  ForallOrdPairs (apart limit) kept ->
  StronglySorted scoreGe (kept ++ sorted) ->
  let out := greedyKeep maxDetections limit sorted kept in
  (List.length out <= maxDetections)%nat
  /\ ForallOrdPairs (apart limit) out
  /\ StronglySorted scoreGe out
  /\ (forall x, In x out -> In x kept \/ In x sorted).
Proof.
  revert kept; induction sorted as [|c rest IH]; intros kept Hlen Hsep Hsort; simpl.
  - rewrite app_nil_r in Hsort. auto.
  - destruct (maxDetections <=? List.length kept)%nat eqn:E.
    + apply sorted_app_l in Hsort. auto.
    + apply Nat.leb_gt in E.
      destruct (forallb _ kept) eqn:F.
      * apply forallb_apart in F.
        destruct (IH (kept ++ [c])) as (H1 & H2 & H3 & H4).
        -- rewrite length_app. simpl. lia.
        -- apply pairs_snoc; assumption.
        -- rewrite <- app_assoc. exact Hsort.
        -- repeat split; try assumption. intros x Hx.
           destruct (H4 x Hx) as [Hk|Hr]; [|auto].
           apply in_app_iff in Hk. simpl in Hk. intuition.
      * destruct (IH kept Hlen Hsep (sorted_drop_middle _ _ _ _ Hsort))
          as (H1 & H2 & H3 & H4).
        repeat split; try assumption. intros x Hx.
        destruct (H4 x Hx); auto.
Qed.

Lemma suppress_facts (cands : list Candidate) :
  (List.length (suppress cands) <= 100)%nat
  /\ ForallOrdPairs (apart (4 # 10)) (suppress cands)
  /\ StronglySorted scoreGe (suppress cands)
  /\ Forall (fun x => In x cands /\ 45 # 100 < cand_score x) (suppress cands).
Proof.
  rewrite DetectorFacts.suppress_thresholds_swapped.
  set (sorted := stableSortDescending
                   (filter (fun c => Qltb (45 # 100) (cand_score c)) cands)).
  destruct (greedyKeep_facts 100 (4 # 10) sorted [])
    as (H1 & H2 & H3 & H4).
  - simpl. lia.
  - constructor.
  - apply stableSortDescending_sorted.
  - repeat split; try assumption.
    apply Forall_forall. intros x Hx.
    destruct (H4 x Hx) as [[]|Hs].
    unfold sorted in Hs.
    apply (proj1 (stableSortDescending_In _ _)) in Hs. apply filter_In in Hs.
    destruct Hs as [Hin Hsc]. apply SchedulerFacts.Qltb_lt in Hsc. auto.
Qed.

(** X5. The suppressor of [processFrame] returns at most 100 candidates,
    each of them one of the candidates it was given, and each with a score
    above 0.45. *)
Theorem suppress_selects_from_input (cands : list Candidate) :
  (List.length (suppress cands) <= 100)%nat
  /\ Forall (fun x => In x cands /\ 45 # 100 < cand_score x) (suppress cands).
Proof. destruct (suppress_facts cands) as (H1 & _ & _ & H4). auto. Qed.

(** X6. In the output of the suppressor every candidate overlaps each
    candidate kept before it with an IoU below 0.4. *)
Theorem suppress_output_apart (cands : list Candidate) :
  ForallOrdPairs
    (fun k c => intersectionOverUnion (cand_box c) (cand_box k) < 4 # 10)
    (suppress cands).
Proof. destruct (suppress_facts cands) as (_ & H2 & _). exact H2. Qed.

(** X7. The output of the suppressor is in descending order of score: no
    candidate has a higher score than one that precedes it. *)
Theorem suppress_output_descending (cands : list Candidate) :
  StronglySorted (fun a b => cand_score b <= cand_score a) (suppress cands).
Proof. destruct (suppress_facts cands) as (_ & _ & H3 & _). exact H3. Qed.

(** *** Running the suppressor on its own output *)

Lemma filter_all {A : Type} (f : A -> bool) (l : list A) :
  Forall (fun x => f x = true) l -> filter f l = l.
Proof.
  induction 1 as [|x l Hx _ IH]; simpl; [reflexivity|].
  rewrite Hx, IH. reflexivity.
Qed.

Lemma insertCandidate_last (c : Candidate) (acc : list Candidate) :
  Forall (fun d => scoreGe d c) acc -> insertCandidate c acc = acc ++ [c].
Proof.
  induction 1 as [|d acc Hd _ IH]; simpl; [reflexivity|].
  assert (E : Qltb (cand_score d) (cand_score c) = false)
    by (apply Qltb_false; exact Hd).
  rewrite E, IH. reflexivity.
Qed.

Lemma sorted_before {A : Type} (R : A -> A -> Prop) (l1 l2 : list A) (c : A) :
  StronglySorted R (l1 ++ c :: l2) -> Forall (fun d => R d c) l1.
Proof.
  induction l1 as [|a l1 IH]; simpl; intros H; [constructor|].
  inversion H as [|? ? Hs Hf]; subst. constructor; [|apply IH, Hs].
  apply Forall_app in Hf. destruct Hf as [_ Hf]. inversion Hf; assumption.
Qed.

Lemma sort_of_sorted (l acc : list Candidate) :
  StronglySorted scoreGe (acc ++ l) ->
  fold_left (fun a c => insertCandidate c a) l acc = acc ++ l.
Proof.
  revert acc; induction l as [|c l IH]; intros acc H; simpl.
  - rewrite app_nil_r. reflexivity.
  - rewrite (insertCandidate_last c acc (sorted_before _ _ _ _ H)).
    rewrite IH; rewrite <- app_assoc; [reflexivity | exact H].
Qed.

Lemma greedyKeep_keeps_all (maxDetections : nat) (limit : Q)
      (l kept : list Candidate) :
  (List.length (kept ++ l) <= maxDetections)%nat ->
  ForallOrdPairs (apart limit) (kept ++ l) ->
  greedyKeep maxDetections limit l kept = kept ++ l.
Proof.
  revert kept; induction l as [|c l IH]; intros kept Hlen Hsep; simpl.
  - rewrite app_nil_r. reflexivity.
  - rewrite length_app in Hlen. simpl in Hlen.
    assert (E : (maxDetections <=? List.length kept)%nat = false)
      by (apply Nat.leb_gt; lia).
    rewrite E.
    rewrite (proj2 (forallb_apart limit c kept) (pairs_before _ _ _ _ Hsep)).
    rewrite IH; rewrite <- app_assoc; simpl; try reflexivity; try exact Hsep.
    rewrite length_app. simpl. lia.
Qed.

(** X8. Suppression is idempotent: running the suppressor of
    [processFrame] on its own output returns that output unchanged. *)
Theorem suppress_idempotent (cands : list Candidate) :
  suppress (suppress cands) = suppress cands.
Proof.
  destruct (suppress_facts cands) as (Hlen & Hsep & Hsort & Hin).
  set (out := suppress cands) in *.
  rewrite DetectorFacts.suppress_thresholds_swapped.
  rewrite filter_all.
  - unfold stableSortDescending. rewrite (sort_of_sorted out []); [|exact Hsort].
    simpl. apply (greedyKeep_keeps_all 100 (4 # 10) out []); assumption.
  - apply Forall_forall. intros x Hx. rewrite Forall_forall in Hin.
    apply SchedulerFacts.Qltb_lt. apply (Hin x Hx).
Qed.

End SuppressionFacts.

(** ** Decoding: score and class of an anchor, and the result of
    [processFrame] *)

Module DecodeFacts.
Import Scheduler Geometry JS Tracker Detector Pipeline.

Lemma Math_max_cases (a b : Q) :
  (a <= b /\ Math_max a b = b) \/ (b < a /\ Math_max a b = a).
Proof.
  unfold Math_max. destruct (Qle_bool a b) eqn:E.
  - left. apply Qle_bool_iff in E. auto.
  - right. split; [|reflexivity]. apply Qnot_le_lt. intros C.
    apply Qle_bool_iff in C. congruence.
Qed.

Lemma Qltb_cases (a b : Q) :
  (a < b /\ Qltb a b = true) \/ (b <= a /\ Qltb a b = false).
Proof.
  destruct (Qltb a b) eqn:E.
  - left. apply SchedulerFacts.Qltb_lt in E. auto.
  - right. apply SuppressionFacts.Qltb_false in E. auto.
Qed.

Lemma nth_le_of_Forall (l : list Q) (m : Q) (j : nat) :
  Forall (fun s => s <= m) l -> (j < List.length l)%nat -> nth j l 0 <= m.
Proof.
  intros H Hj. rewrite Forall_forall in H. apply H, nth_In, Hj.
Qed.

(** The scan of [argMax] and the fold of [max], run side by side from a
    state in which [best] holds the first greatest score seen so far. *)
Lemma argMax_from_spec (scores pre : list Q) (best : nat) (bestScore acc : Q) :
  acc == bestScore ->
  (best < List.length pre)%nat ->
  nth best pre 0 == bestScore ->
  Forall (fun s => s <= bestScore) pre ->
  (forall j, (j < best)%nat -> nth j pre 0 < bestScore) ->
  let r := argMax_from (List.length pre) best bestScore scores in
  let m := fold_left Math_max scores acc in
  (r < List.length (pre ++ scores))%nat
  /\ nth r (pre ++ scores) 0 == m
  /\ Forall (fun s => s <= m) (pre ++ scores)
  /\ (forall j, (j < r)%nat -> nth j (pre ++ scores) 0 < m).
Proof.
  revert pre best bestScore acc.
  induction scores as [|s rest IH]; intros pre best bestScore acc Hacc Hb Hn Hall Hfirst.
  - simpl. rewrite app_nil_r. repeat split.
    + exact Hb.
    + rewrite Hacc. exact Hn.
    + rewrite Forall_forall in *. intros x Hx. rewrite Hacc. apply Hall, Hx.
    + intros j Hj. rewrite Hacc. apply Hfirst, Hj.
  - cbn [argMax_from fold_left].
    assert (Hpre : pre ++ s :: rest = (pre ++ [s]) ++ rest)
      by (rewrite <- app_assoc; reflexivity).
    assert (Hlen : S (List.length pre) = List.length (pre ++ [s]))
      by (rewrite length_app; simpl; lia).
    rewrite Hpre, Hlen.
    destruct (Qltb_cases bestScore s) as [[Hlt ->]|[Hge ->]].
    + apply IH.
      * destruct (Math_max_cases acc s) as [[_ ->]|[C _]]; [reflexivity|].
        rewrite Hacc in C. lra.
      * rewrite length_app. simpl. lia.
      * rewrite nth_middle. reflexivity.
      * apply Forall_app. split.
        -- rewrite Forall_forall in *. intros x Hx. specialize (Hall x Hx). lra.
        -- constructor; [lra|constructor].
      * intros j Hj. rewrite app_nth1 by exact Hj.
        pose proof (nth_le_of_Forall pre bestScore j Hall Hj). lra.
    + apply IH.
      * destruct (Math_max_cases acc s) as [[C ->]|[_ ->]]; [|exact Hacc].
        rewrite Hacc in C. lra.
      * rewrite length_app. simpl. lia.
      * rewrite app_nth1 by exact Hb. exact Hn.
      * apply Forall_app. split; [exact Hall|]. constructor; [exact Hge|constructor].
      * intros j Hj. rewrite app_nth1 by lia. apply Hfirst, Hj.
Qed.

(** X9. For an anchor with at least one class score, the class that
    decoding reports is an index into the scores, the reported score is the
    score of that class, no class has a higher score, and every class before
    the reported one has a strictly lower score (the first maximum wins). *)
Theorem argMax_is_first_maximum (scores : list Q) :
  scores <> [] ->
  (argMax scores < List.length scores)%nat
  /\ nth (argMax scores) scores 0 == maxScore scores
  /\ Forall (fun s => s <= maxScore scores) scores
  /\ (forall j, (j < argMax scores)%nat -> nth j scores 0 < maxScore scores).
Proof.
  destruct scores as [|s rest]; [congruence|]. intros _.
  apply (argMax_from_spec rest [s] 0 s s).
  - reflexivity.
  - simpl. lia.
  - reflexivity.
  - constructor; [lra|constructor].
  - intros j Hj. lia.
Qed.

Lemma argMax_is_first_maximum_witness :
  let scores := [1 # 10; 82 # 100; 5 # 100; 82 # 100] in
  (argMax scores < List.length scores)%nat
  /\ nth (argMax scores) scores 0 == maxScore scores
  /\ Forall (fun s => s <= maxScore scores) scores
  /\ (forall j, (j < argMax scores)%nat -> nth j scores 0 < maxScore scores).
Proof.
  apply (argMax_is_first_maximum [1 # 10; 82 # 100; 5 # 100; 82 # 100]).
  discriminate.
Defined.

Lemma classNameOf_nonempty (names : nat -> option string) (classId : nat) :
  classNameOf names classId <> ""%string.
Proof.
  unfold classNameOf. destruct (names classId) as [n|].
  - destruct (truthy (VString n)) eqn:E.
    + apply KeywordFacts.truthy_string. exact E.
    + discriminate.
  - discriminate.
Qed.

(** X10. Whatever the frame and the model do, [processFrame] either throws,
    and then the model was not loaded, the video element was missing, the
    frame could not be read or the model failed; or it returns at most 100
    detections together with the padding of the frame's shape, and each
    detection has no id yet, a score above 0.45, a non-negative class and a
    non-empty class name. *)
Theorem processFrame_result (env : FrameEnv) :
  match processFrame env with
  | Returns (dets, pad) =>
      (List.length dets <= 100)%nat
      /\ Forall (fun d => id d = None /\ screenBox d = None
                          /\ 45 # 100 < score d /\ (0 <= class d)%Z
                          /\ className d <> ""%string) dets
      /\ exists h w, videoElement env = Some (Returns (h, w))
                     /\ pad = paddingInfo h w
  | Throws _ =>
      modelLoaded env = false \/ videoElement env = None
      \/ (exists m, videoElement env = Some (Throws m))
      \/ (exists m, execute env = Throws m)
  end.
Proof.
  unfold processFrame.
  destruct (modelLoaded env); simpl; [|auto].
  destruct (videoElement env) as [[[h w]|msg]|]; [| |auto].
  - destruct (execute env) as [outputs|msg].
    + destruct (DetectorFacts.postprocess_cases (classNames env) outputs)
        as [(anchors & _ & _ & ->) | (m & -> & _)];
        (split; [|split; [|exists h, w; auto]]);
        try (simpl; lia); try apply Forall_nil.
      * rewrite length_map. apply SuppressionFacts.suppress_facts.
      * apply Forall_forall. intros d Hd. apply in_map_iff in Hd.
        destruct Hd as [c [<- Hc]]. simpl.
        match type of Hc with
        | In _ (suppress ?l) =>
            destruct (SuppressionFacts.suppress_facts l) as (_ & _ & _ & HF)
        end.
        rewrite Forall_forall in HF. destruct (HF c Hc) as [_ Hs].
        repeat split; try assumption; [lia|apply classNameOf_nonempty].
    + right. right. right. exists msg. reflexivity.
  - right. right. left. exists msg. reflexivity.
Qed.

(** *** Where a detection comes from *)

(** X30. Every detection that [processFrame] returns is made from one
    anchor of the model's output: its box is that anchor's box in corner
    form, with x and y where the page expects them (x1 is the centre's x
    minus half the width, the width is x2 - x1, and likewise for y), its
    score is the greatest class score of the anchor, its class the first
    class with that score, and its name the table's name for that class.
    Detections are returned only for an output of two or more anchors. *)
Theorem processFrame_detections_from_anchors (env : FrameEnv)
        (anchors : list Anchor) (dets : list Detection) (pad : PaddingInfo) :
  execute env = Returns (Some anchors) ->
  processFrame env = Returns (dets, pad) ->
  Forall (fun d => exists a,
              In a anchors
              /\ bx1 (box d) == cx a - aw a / 2
              /\ by1 (box d) == cy a - ah a / 2
              /\ bx2 (box d) - bx1 (box d) == aw a
              /\ by2 (box d) - by1 (box d) == ah a
              /\ score d = maxScore (classScores a)
              /\ class d = Z.of_nat (argMax (classScores a))
              /\ className d = classNameOf (classNames env) (argMax (classScores a)))
         dets
  /\ (dets = [] \/ (2 <= List.length anchors)%nat).
Proof.
  intros He Hp.
  assert (Hd : dets = match postprocess (classNames env) (Some anchors) with
                      | Returns ds => ds
                      | Throws _ => []
                      end).
  { unfold processFrame in Hp.
    destruct (modelLoaded env); simpl in Hp; [|discriminate].
    destruct (videoElement env) as [[[h w]|msg]|]; try discriminate.
    rewrite He in Hp. injection Hp as <- _. reflexivity. }
  rewrite Hd. clear Hd Hp.
  destruct (DetectorFacts.postprocess_cases (classNames env) (Some anchors))
    as [(anchors' & Ha & Hlen & ->) | (m & -> & _)]; [|split; [constructor|auto]].
  injection Ha as <-. split.
  - apply Forall_forall. intros d Hd. apply in_map_iff in Hd.
    destruct Hd as [c [<- Hc]].
    destruct (SuppressionFacts.suppress_facts (decode anchors)) as (_ & _ & _ & HF).
    rewrite Forall_forall in HF. destruct (HF c Hc) as [Hin _].
    apply in_map_iff in Hin. destruct Hin as [a [<- Ha]].
    exists a. simpl. repeat split; try assumption; try reflexivity; ring.
  - destruct anchors as [|a [|a' rest]]; [left; reflexivity | | right; simpl; lia].
    exfalso. apply Hlen. reflexivity.
Qed.

(** The street frame: three anchors, of which the car and the person are
    returned. *)
Lemma processFrame_detections_from_anchors_witness :
  match processFrame streetFrame with
  | Returns (dets, _) =>
      map className dets = ["person"%string; "car"%string]
      /\ Forall (fun d => exists a,
                    In a [carAnchor; backgroundAnchor; personAnchor]
                    /\ bx2 (box d) - bx1 (box d) == aw a
                    /\ by2 (box d) - by1 (box d) == ah a) dets
  | Throws _ => False
  end.
Proof.
  destruct (processFrame streetFrame) as [[dets pad]|] eqn:E; [|discriminate E].
  destruct (processFrame_detections_from_anchors streetFrame
              [carAnchor; backgroundAnchor; personAnchor]
              dets pad eq_refl E) as [H _].
  split.
  - vm_compute in E. injection E as <- _. reflexivity.
  - rewrite Forall_forall in *. intros d Hd.
    destruct (H d Hd) as (a & Ha & _ & _ & Hw & Hh & _).
    exists a. auto.
Defined.

End DecodeFacts.

(** ** The tracker: matching, ids and what a cycle leaves behind *)

Module TrackingFacts.
Import Scheduler Geometry JS Tracker TrackerRuns.

Lemma find_first {A : Type} (f : A -> bool) (l : list A) :
  match find f l with
  | Some r => exists pre post,
      l = pre ++ r :: post /\ f r = true /\ Forall (fun q => f q = false) pre
  | None => Forall (fun q => f q = false) l
  end.
Proof.
  induction l as [|a l IH]; simpl; [constructor|].
  destruct (f a) eqn:E.
  - exists [], l. repeat split; [exact E|constructor].
  - destruct (find f l) as [r|].
    + destruct IH as (pre & post & -> & Hr & Hpre).
      exists (a :: pre), post. repeat split; [exact Hr|].
      constructor; assumption.
    + constructor; assumption.
Qed.

Lemma similar_iff (d : Detection) (r : TrackRecord) :
  similar d r = true
  <-> prev_class r = class d
      /\ Qabs (bx1 (box d) - bx1 (prev_box r)) < 15 # 100
      /\ Qabs (by1 (box d) - by1 (prev_box r)) < 15 # 100.
Proof.
  unfold similar, matchThreshold.
  rewrite !andb_true_iff, Z.eqb_eq, !SchedulerFacts.Qltb_lt. tauto.
Qed.

(** X11. For a detection fresh from [processFrame], the match is the first
    previous record, in list order, of the same class whose top-left corner
    is less than 0.15 away in both coordinates; every record before it fails
    that test; and there is no match exactly when every record fails it. *)
Theorem findMatchingDetection_first_match (b : Box) (s : Q) (c : Z) (n : string)
        (prev : list TrackRecord) :
  let d := newDetection b s c n in
  match findMatchingDetection d prev with
  | Some r =>
      (exists pre post,
          prev = pre ++ r :: post
          /\ Forall (fun q => similar d q = false) pre)
      /\ prev_class r = c
      /\ Qabs (bx1 b - bx1 (prev_box r)) < 15 # 100
      /\ Qabs (by1 b - by1 (prev_box r)) < 15 # 100
  | None => Forall (fun q => similar d q = false) prev
  end.
Proof.
  intros d. unfold d. rewrite TrackerFacts.findMatchingDetection_fresh.
  pose proof (find_first (similar (newDetection b s c n)) prev) as H.
  destruct (find (similar (newDetection b s c n)) prev) as [r|]; [|exact H].
  destruct H as (pre & post & Hp & Hr & Hpre).
  apply similar_iff in Hr. simpl in Hr.
  split; [exists pre, post; auto | exact Hr].
Qed.

(** X12. A detection that already carries a non-empty id is matched by id
    alone: when some previous record has that id, the result is the first
    record with it, whatever its class and position. *)
Theorem findMatchingDetection_by_id (d : Detection) (prev : list TrackRecord)
        (i : string) (r0 : TrackRecord) :
  id d = Some i -> i <> ""%string -> In r0 prev -> prev_id r0 = i ->
  exists r pre post,
    findMatchingDetection d prev = Some r
    /\ prev = pre ++ r :: post
    /\ prev_id r = i
    /\ Forall (fun q => prev_id q <> i) pre.
Proof.
  intros Hid Hne Hin Hr0. unfold findMatchingDetection.
  destruct prev as [|a prev']; [contradiction|].
  set (l := a :: prev') in *. rewrite Hid.
  rewrite (proj2 (KeywordFacts.truthy_string i) Hne).
  pose proof (find_first (fun p => (prev_id p =? i)%string) l) as H.
  destruct (find (fun p => (prev_id p =? i)%string) l) as [r|].
  - destruct H as (pre & post & Hp & Hr & Hpre).
    exists r, pre, post. repeat split; try assumption.
    + apply String.eqb_eq. exact Hr.
    + rewrite Forall_forall in *. intros q Hq.
      apply String.eqb_neq. apply Hpre, Hq.
  - rewrite Forall_forall in H. specialize (H r0 Hin).
    apply String.eqb_neq in H. congruence.
Qed.

Lemma findMatchingDetection_by_id_witness :
  let far := mkTrackRecord "7_0_0_1" 7 (mkBox 0 0 10 10) in
  let d := mkDetection (mkBox 500 500 600 600) (9 # 10) 2 "car"
                       (Some "7_0_0_1"%string) None None in
  exists r pre post,
    findMatchingDetection d [far] = Some r
    /\ [far] = pre ++ r :: post
    /\ prev_id r = "7_0_0_1"%string
    /\ Forall (fun q => prev_id q <> "7_0_0_1"%string) pre.
Proof.
  intros far d.
  apply (findMatchingDetection_by_id d [far] "7_0_0_1" far).
  - reflexivity.
  - discriminate.
  - left; reflexivity.
  - reflexivity.
Defined.

(** *** Fresh ids *)

Lemma sep_split (s1 s2 r1 r2 : string) :
  NoSep s1 -> NoSep s2 ->
  (s1 ++ "_" ++ r1 = s2 ++ "_" ++ r2)%string -> s1 = s2 /\ r1 = r2.
Proof.
  revert s2; induction s1 as [|c s1 IH]; intros [|c2 s2]; simpl.
  - intros _ _ H. injection H as H. auto.
  - intros _ [Hc _] H. injection H as H _. congruence.
  - intros [Hc _] _ H. injection H as H _. congruence.
  - intros [_ H1] [_ H2] H. injection H as -> H.
    destruct (IH s2 H1 H2 H) as [-> ->]. auto.
Qed.

(** X13. Two fresh ids are the same string exactly when they were made from
    the same class, the same rounded hundredths of the box's x1 and y1, and
    clock readings with the same last three digits; score, size of the box
    and class name play no part. *)
Theorem freshId_eq_iff (now now' : Z) (d d' : Detection) :
  freshId now d = freshId now' d'
  <-> class d = class d'
      /\ Math_round (bx1 (box d) * 100) = Math_round (bx1 (box d') * 100)
      /\ Math_round (by1 (box d) * 100) = Math_round (by1 (box d') * 100)
      /\ (now mod 1000 = now' mod 1000)%Z.
Proof.
  unfold freshId. split.
  - intros H.
    apply sep_split in H; try apply TrackerFacts.NoSep_String_of_Z.
    destruct H as [H1 H].
    apply sep_split in H; try apply TrackerFacts.NoSep_String_of_Z.
    destruct H as [H2 H].
    apply sep_split in H; try apply TrackerFacts.NoSep_String_of_Z.
    destruct H as [H3 H4].
    repeat split; apply TrackerFacts.String_of_Z_inj; assumption.
  - intros (-> & -> & -> & ->). reflexivity.
Qed.

(** *** What a cycle leaves behind *)

Lemma recordOf_assign (e : Display) (p : PaddingInfo) (prev : list TrackRecord)
      (i : nat) (d : Detection) :
  snapshot (assign e p prev i d) = recordOf (assign e p prev i d).
Proof. rewrite TrackerFacts.snapshot_assign. reflexivity. Qed.

(** X14. After a cycle, [previousDetections] holds one record for each
    emitted detection, in the same order and with that detection's id, class
    and box, and nothing else: previous records that matched no detection are
    gone. Every emitted detection carries an id, and box, score, class and
    name are those [processFrame] gave it. *)
Theorem updateDetectionBoxes_records (e : Display) (dets : list Detection)
        (p : PaddingInfo) (prev : list TrackRecord) :
  let r := updateDetectionBoxes e dets p prev in
  snd r = map recordOf (detections (fst r))
  /\ List.length (snd r) = List.length dets
  /\ Forall (fun d => exists i, id d = Some i) (detections (fst r))
  /\ map box (detections (fst r)) = map box dets
  /\ map class (detections (fst r)) = map class dets
  /\ map score (detections (fst r)) = map score dets
  /\ map className (detections (fst r)) = map className dets.
Proof.
  intros r. subst r.
  destruct (TrackerFacts.updateDetectionBoxes_map e dets p prev) as [-> ->].
  unfold mapi.
  rewrite length_map, TrackerFacts.mapi_from_length.
  rewrite !TrackerFacts.map_mapi_from.
  cbn [assign box class score className].
  rewrite !TrackerFacts.mapi_from_map.
  repeat split.
  - apply TrackerFacts.mapi_from_ext. intros j d. apply recordOf_assign.
  - apply TrackerFacts.mapi_from_Forall. intros j d _. eexists. reflexivity.
Qed.

(** *** Counting keyword matches *)

Lemma trackLoop_count (e : Display) (p : PaddingInfo) (dets : list Detection)
      (st : LoopState) :
  keywordMatchCount (fold_left (trackOne e p) dets st)
  = (keywordMatchCount st
     + List.length (filter (fun d => truthy (keywordMatch (keyword e) (className d)))
                           dets))%nat.
Proof.
  revert st; induction dets as [|d dets IH]; intros st; simpl; [lia|].
  rewrite IH. simpl.
  destruct (truthy (keywordMatch (keyword e) (className d))); simpl; lia.
Qed.

Lemma filter_length_le {A : Type} (f : A -> bool) (l : list A) :
  (List.length (filter f l) <= List.length l)%nat.
Proof.
  induction l as [|x l IH]; simpl; [lia|]. destruct (f x); simpl; lia.
Qed.

Lemma filter_mapi_from_length {A B : Type} (f : nat -> A -> B) (g : B -> bool)
      (g' : A -> bool) (i : nat) (l : list A) :
  (forall j x, g (f j x) = g' x) ->
  List.length (filter g (mapi_from f i l)) = List.length (filter g' l).
Proof.
  intros H. revert i; induction l as [|x l IH]; intros i; simpl; [reflexivity|].
  rewrite H. destruct (g' x); simpl; rewrite IH; reflexivity.
Qed.

(** X15. The statistics of an emitted set agree with its detections: the
    total is their number, the keyword count is the number of detections
    whose [isKeywordMatch] is truthy and so never exceeds the total, and with
    an empty keyword the count is 0. *)
Theorem updateDetectionBoxes_counts (e : Display) (dets : list Detection)
        (p : PaddingInfo) (prev : list TrackRecord) :
  let out := fst (updateDetectionBoxes e dets p prev) in
  totalCount out = List.length (detections out)
  /\ matchCount out = List.length (filter flagged (detections out))
  /\ (matchCount out <= totalCount out)%nat
  /\ (keyword e = ""%string -> matchCount out = 0%nat).
Proof.
  intros out.
  assert (Hd : detections out = mapi (assign e p prev) dets)
    by (apply TrackerFacts.updateDetectionBoxes_map).
  assert (Ht : totalCount out = List.length dets) by reflexivity.
  assert (Hm : matchCount out
               = List.length (filter (fun d => truthy (keywordMatch (keyword e)
                                                                    (className d)))
                                     dets)).
  { unfold out, updateDetectionBoxes. simpl. rewrite trackLoop_count. reflexivity. }
  unfold mapi in Hd. rewrite Hd, Ht, Hm, TrackerFacts.mapi_from_length.
  repeat split.
  - symmetry. apply filter_mapi_from_length. intros j d. reflexivity.
  - apply filter_length_le.
  - intros Hk. rewrite Hk. clear.
    induction dets as [|d l IH]; [reflexivity|]. cbn [filter].
    change (truthy (keywordMatch "" (className d))) with false. exact IH.
Qed.

Lemma updateDetectionBoxes_counts_witness :
  let e := mkDisplay "" 1 1 (clockFrom 1700000000123) in
  let out := fst (updateDetectionBoxes e
                    [newDetection (mkBox 100 200 180 260) (82 # 100) 2 "car"]
                    (paddingInfo 720 1280) []) in
  matchCount out = 0%nat.
Proof.
  intros e out.
  apply (updateDetectionBoxes_counts e
           [newDetection (mkBox 100 200 180 260) (82 # 100) 2 "car"]
           (paddingInfo 720 1280) []).
  reflexivity.
Defined.

(** *** Identity along a chain of small moves *)

Lemma idsOver_chain (c : Z) (i0 : string) (b0 : Box) (cycles : list SingleCycle) :
  SmallMoves b0 cycles ->
  Forall (fun ids => ids = [Some i0])
         (idsOver c [mkTrackRecord i0 c b0] cycles).
Proof.
  revert b0; induction cycles as [|[[[[e p] b] s] n] rest IH]; intros b0 Hm.
  - constructor.
  - simpl in Hm. destruct Hm as (Hx & Hy & Hrest).
    cbn [idsOver].
    destruct (TrackerFacts.single_cycle e p [mkTrackRecord i0 c b0] b s c n)
      as [Hid Hprev].
    assert (Ha : assignedId e [mkTrackRecord i0 c b0] 0 (newDetection b s c n) = i0).
    { unfold assignedId. rewrite TrackerFacts.findMatchingDetection_fresh.
      cbn [find].
      rewrite (proj2 (similar_iff (newDetection b s c n) (mkTrackRecord i0 c b0)));
        [reflexivity|].
      simpl. auto. }
    rewrite Ha in Hid, Hprev.
    constructor; [exact Hid|].
    rewrite Hprev. apply IH. exact Hrest.
Qed.

(** X16. An object keeps its id for as long as it is detected in every
    cycle with the same class and its top-left corner moves by less than
    0.15 from one cycle to the next: all these cycles emit the id the first
    one gave it, however far the object has drifted in total. *)
Theorem id_kept_along_small_moves (c : Z) (prev0 : list TrackRecord)
        (e : Display) (p : PaddingInfo) (b0 : Box) (s : Q) (n : string)
        (cycles : list SingleCycle) :
  SmallMoves b0 cycles ->
  let r0 := updateDetectionBoxes e [newDetection b0 s c n] p prev0 in
  Forall (fun ids => ids = map id (detections (fst r0)))
         (idsOver c (snd r0) cycles).
Proof.
  intros Hm r0.
  destruct (TrackerFacts.single_cycle e p prev0 b0 s c n) as [Hid Hprev].
  fold r0 in Hid, Hprev. rewrite Hid, Hprev.
  apply idsOver_chain. exact Hm.
Qed.

Lemma id_kept_along_small_moves_witness :
  let e := mkDisplay "car" 1 1 (clockFrom 1700000000123) in
  let p := paddingInfo 720 1280 in
  let r0 := updateDetectionBoxes e
              [newDetection (mkBox 100 200 180 260) (82 # 100) 2 "car"] p [] in
  Forall (fun ids => ids = map id (detections (fst r0)))
         (idsOver 2 (snd r0)
            [(e, p, mkBox (1001 # 10) 200 180 260, 82 # 100, "car"%string);
             (e, p, mkBox (1002 # 10) 200 180 260, 82 # 100, "car"%string);
             (e, p, mkBox (1003 # 10) 200 180 260, 82 # 100, "car"%string)]).
Proof.
  intros e p r0.
  apply (id_kept_along_small_moves 2 [] e p (mkBox 100 200 180 260) (82 # 100) "car").
  simpl. repeat split; reflexivity.
Defined.

End TrackingFacts.

(** ** The keyword test and letter case *)

Module CaseFacts.
Import JS Tracker.
Local Open Scope string_scope.

Lemma lower_ascii_idem (c : ascii) : lower_ascii (lower_ascii c) = lower_ascii c.
Proof.
  destruct c as [[] [] [] [] [] [] [] []]; vm_compute; reflexivity.
Qed.

Lemma toLowerCase_idem (s : string) : toLowerCase (toLowerCase s) = toLowerCase s.
Proof.
  induction s as [|c s IH]; simpl; [reflexivity|].
  rewrite lower_ascii_idem, IH. reflexivity.
Qed.

Lemma keywordMatch_same_letters (keyword keyword' name name' : string) :
  SameLetters keyword keyword' -> SameLetters name name' ->
  keywordMatch keyword' name' = keywordMatch keyword name.
Proof.
  intros Hk Hn.
  pose proof (proj2 (KeywordFacts.toLowerCase_same _ _) Hk) as Ek.
  pose proof (proj2 (KeywordFacts.toLowerCase_same _ _) Hn) as En.
  unfold keywordMatch, and_string. rewrite <- Ek, <- En.
  destruct keyword, keyword'; simpl in Hk; try contradiction; reflexivity.
Qed.



End CaseFacts.

(** ** Sessions: throttle, stop, pause and the frame callbacks *)

Module SessionFacts.
Import Scheduler Geometry Detector Pipeline.

(** X18. In every state a session of the page can reach, the timing window
    is empty and the interval used by the throttle is the fallback of
    200 ms: no handler of the page records a timing. *)
Theorem interval_is_always_fallback (kw : string) (trace : list Event) :
  frameTimings (run (initial kw) trace) = []
  /\ getDetectionInterval (frameTimings (run (initial kw) trace)) = 200.
Proof.
  rewrite PipelineFacts.run_frameTimings. split; reflexivity.
Qed.

(** *** Spacing of cycle starts *)

(** What an event that does not reset the clock does to it: a tick that
    starts a cycle comes at least one interval after [lastDetectionTime] and
    sets it to its timestamp; anything else leaves it alone. *)
Lemma step_clock (s : State) (ev : Event) :
  resetsClock ev = false ->
  match ev with
  | AnimationFrame t =>
      if (inFlight s <? inFlight (step s ev))%nat
      then lastDetectionTime (step s ev) = t
           /\ lastDetectionTime s + getDetectionInterval (frameTimings s) <= t
      else lastDetectionTime (step s ev) = lastDetectionTime s
  | _ => lastDetectionTime (step s ev) = lastDetectionTime s
  end.
Proof.
  intros Hev. destruct ev as [m v| |h|t|env rx ry now]; simpl.
  - discriminate Hev.
  - reflexivity.
  - destruct h; [reflexivity | discriminate Hev].
  - destruct (animationFrames s) as [|n].
    + rewrite Nat.ltb_irrefl. reflexivity.
    + unfold detectionLoop. cbn [isDetectionRunning set_counters].
      destruct (isDetectionRunning s); cbn [negb].
      * change (throttled t (requestAnimationFrame (set_counters n (inFlight s) s)))
          with (throttled t s).
        destruct (throttled t s) eqn:E.
        -- cbn [inFlight requestAnimationFrame set_counters].
           rewrite Nat.ltb_irrefl. reflexivity.
        -- cbn [inFlight awaitProcessFrame set_counters set_lastDetectionTime
                requestAnimationFrame animationFrames].
           rewrite (proj2 (Nat.ltb_lt _ _) (Nat.lt_succ_diag_r _)).
           split; [reflexivity|].
           apply PipelineFacts.throttled_ge in E. lra.
      * cbn [inFlight set_counters]. rewrite Nat.ltb_irrefl. reflexivity.
  - destruct (inFlight s); [reflexivity|].
    unfold resumeDetectionLoop.
    destruct (processFrame env) as [[ds pad]|msg]; [|reflexivity].
    match goal with |- context [Tracker.updateDetectionBoxes ?a ?b ?c ?d] =>
      destruct (Tracker.updateDetectionBoxes a b c d) end.
    reflexivity.
Qed.

Lemma cycleStarts_spaced (trace : list Event) (s : State) :
  existsb resetsClock trace = false ->
  Spaced (getDetectionInterval (frameTimings s)) (lastDetectionTime s)
         (cycleStarts s trace).
Proof.
  revert s; induction trace as [|ev trace IH]; intros s H; [exact I|].
  cbn [existsb] in H. apply orb_false_iff in H. destruct H as [Hev Hrest].
  pose proof (step_clock s ev Hev) as Hc.
  pose proof (PipelineFacts.step_frameTimings s ev) as Hw.
  specialize (IH (step s ev) Hrest). rewrite Hw in IH.
  destruct ev as [m v| |h|t|env rx ry now]; cbn [cycleStarts];
    try (rewrite Hc in IH; exact IH).
  destruct (inFlight s <? inFlight (step s (AnimationFrame t)))%nat.
  - destruct Hc as [Hc Hle]. rewrite Hc in IH. split; assumption.
  - rewrite Hc in IH. exact IH.
Qed.

(** X19. Along any stretch of a session without a start and without a
    return to visibility, the ticks that start a cycle are spaced by the
    throttle: each comes at least one interval after the one before, and the
    first at least one interval after [lastDetectionTime]; in a session of
    the page the interval is 200 ms. A start or a return to visibility
    resets the clock, and the spacing does not hold across it: in a session
    that is hidden and shown between its ticks at 1000 and 1016 ms, both
    ticks start a cycle. *)
Theorem throttle_spacing (s : State) (trace : list Event) :
  existsb resetsClock trace = false ->
  Spaced (getDetectionInterval (frameTimings s)) (lastDetectionTime s)
         (cycleStarts s trace)
  /\ (forall kw before,
         let s0 := run (initial kw) before in
         Spaced 200 (lastDetectionTime s0) (cycleStarts s0 trace))
  /\ cycleStarts (initial "car") pausedBetweenTicks = [1000; 1016]
  /\ ~ Spaced 200 0 (cycleStarts (initial "car") pausedBetweenTicks).
Proof.
  intros H. split; [apply cycleStarts_spaced, H|]. split; [|split].
  - intros kw before s0.
    pose proof (cycleStarts_spaced trace s0 H) as Hs.
    unfold s0 in Hs at 1. rewrite PipelineFacts.run_frameTimings in Hs.
    exact Hs.
  - reflexivity.
  - change (cycleStarts (initial "car") pausedBetweenTicks) with [1000; 1016].
    intros (_ & Hle & _). revert Hle. apply Qlt_not_le. reflexivity.
Qed.

(** Ticks every 100 ms or so after a start, one cycle settling in between:
    cycles start at 1000, 1200 and 1400 ms. *)
Lemma throttle_spacing_witness :
  let s := step (initial "car") (Start true true) in
  let trace := [AnimationFrame 1000; AnimationFrame 1100; AnimationFrame 1199;
                AnimationFrame 1200;
                Settle carFrame 1 1 (Tracker.clockFrom 1700000000123);
                AnimationFrame 1300; AnimationFrame 1400] in
  cycleStarts s trace = [1000; 1200; 1400]
  /\ Spaced (getDetectionInterval (frameTimings s)) (lastDetectionTime s)
            (cycleStarts s trace).
Proof.
  intros s trace. split; [reflexivity|].
  apply (throttle_spacing s trace). reflexivity.
Defined.

(** X20. Stopping does not discard a cycle that is still in flight: when
    its [processFrame] returns after the stop, the detection set is emitted
    all the same and [previousDetections], emptied by the stop, is filled
    with the records of that frame, each under an id freshly made with the
    clock's reading in its iteration, whatever was tracked before the stop;
    the running flag stays cleared. *)
Theorem settle_after_stop_is_applied (s : State) (env : FrameEnv)
        (ratioX ratioY : Q) (now : nat -> Z)
        (dets : list Tracker.Detection) (pad : PaddingInfo) :
  (0 < inFlight s)%nat ->
  processFrame env = Returns (dets, pad) ->
  let s' := run s [Stop; Settle env ratioX ratioY now] in
  isDetectionRunning s' = false
  /\ inFlight s' = pred (inFlight s)
  /\ map Tracker.prev_id (previousDetections s')
     = Tracker.mapi (fun i d => Tracker.freshId (now i) d) dets
  /\ map Tracker.prev_box (previousDetections s') = map Tracker.box dets
  /\ exists set, emitted s' = emitted s ++ [set]
                 /\ Tracker.totalCount set = List.length dets
                 /\ map Tracker.id (Tracker.detections set)
                    = Tracker.mapi
                        (fun i d => Some (Tracker.freshId (now i) d)) dets.
Proof.
  intros Hf Hp s'.
  destruct (inFlight s) as [|k] eqn:Ek; [lia|].
  set (e := Tracker.mkDisplay (keyword s) ratioX ratioY now).
  assert (Hs' : s' = resumeDetectionLoop (Returns (dets, pad)) ratioX ratioY now
                       (set_counters (animationFrames s) k (stopDetection s))).
  { unfold s', run. simpl. rewrite Ek, Hp. reflexivity. }
  rewrite Hs'. unfold resumeDetectionLoop.
  change (previousDetections (set_counters (animationFrames s) k (stopDetection s)))
    with (@nil Tracker.TrackRecord).
  change (keyword (set_counters (animationFrames s) k (stopDetection s)))
    with (keyword s). fold e.
  pose proof (PipelineFacts.updateDetectionBoxes_fresh_ids e dets pad) as Hids.
  destruct (TrackerFacts.updateDetectionBoxes_map e dets pad []) as [Hd Hr].
  destruct (Tracker.updateDetectionBoxes e dets pad []) as [set prev] eqn:Eu.
  simpl in Hd, Hr, Hids. simpl. subst prev.
  unfold Tracker.mapi. rewrite !map_map, !TrackerFacts.map_mapi_from.
  repeat split.
  - apply TrackerFacts.mapi_from_ext. intros j d.
    rewrite TrackerFacts.snapshot_assign. reflexivity.
  - cbn [Tracker.snapshot Tracker.prev_box Tracker.assign Tracker.box].
    apply TrackerFacts.mapi_from_map.
  - exists set. split; [reflexivity|]. split; [|exact Hids].
    apply (f_equal fst) in Eu. simpl in Eu. rewrite <- Eu. reflexivity.
Qed.

(** The session that tracks a car is stopped with a cycle in flight; the
    cycle then returns a person and the car: both get new ids, made with
    two readings of the clock, and the car's id from before the stop is not
    taken up. *)
Lemma settle_after_stop_is_applied_witness :
  let s' := run trackingSession
                [Stop; Settle streetFrame 1 1 (Tracker.clockFrom 1700000000500)] in
  map Tracker.prev_id (previousDetections trackingSession)
  = ["2_28000_29000_123"%string]
  /\ isDetectionRunning s' = false
  /\ map Tracker.prev_id (previousDetections s')
     = ["0_48000_24000_500"%string; "2_28000_29000_501"%string].
Proof.
  intros s'. split; [reflexivity|].
  destruct (processFrame streetFrame) as [[dets pad]|] eqn:E; [|discriminate E].
  destruct (settle_after_stop_is_applied trackingSession streetFrame 1 1
              (Tracker.clockFrom 1700000000500) dets pad) as (H1 & _ & H3 & _).
  - vm_compute. reflexivity.
  - exact E.
  - subst s'. split; [exact H1|]. rewrite H3.
    vm_compute in E. injection E as <- _. vm_compute. reflexivity.
Defined.

(** X21. A stop that arrives while the tab is hidden does not cancel the
    resume: if detection was running when the tab was hidden, then after
    hide, stop and show the running flag is set again and a frame callback
    is queued, with the tracker empty and the clock at 0. *)
Theorem stop_while_hidden_is_undone (s : State) :
  isDetectionRunning s = true ->
  let s' := run s [VisibilityChange true; Stop; VisibilityChange false] in
  isDetectionRunning s' = true
  /\ wasRunningBeforeHidden s' = true
  /\ previousDetections s' = []
  /\ lastDetectionTime s' = 0
  /\ animationFrames s' = S (animationFrames s).
Proof.
  intros Hrun. unfold run. simpl.
  unfold visibilitychange. simpl. rewrite Hrun. simpl. repeat split.
Qed.

Lemma stop_while_hidden_is_undone_witness :
  let s' := run oneInFlight [VisibilityChange true; Stop; VisibilityChange false] in
  isDetectionRunning s' = true
  /\ wasRunningBeforeHidden s' = true
  /\ previousDetections s' = []
  /\ lastDetectionTime s' = 0
  /\ animationFrames s' = S (animationFrames oneInFlight).
Proof. apply (stop_while_hidden_is_undone oneInFlight). reflexivity. Defined.

(** X22. While detection runs, a frame callback always queues its
    successor, so the number of queued callbacks stays what it is; a pause
    and resume queues one more, which then stays as well. Once detection is
    not running, a callback changes nothing and is not replaced. *)
Theorem frame_callbacks (s : State) (timestamp : Q) :
  (0 < animationFrames s)%nat ->
  (isDetectionRunning s = true ->
   animationFrames (step s (AnimationFrame timestamp)) = animationFrames s
   /\ animationFrames (run s [VisibilityChange true; VisibilityChange false])
      = S (animationFrames s)
   /\ isDetectionRunning (run s [VisibilityChange true; VisibilityChange false])
      = true)
  /\ (isDetectionRunning s = false ->
      step s (AnimationFrame timestamp)
      = set_counters (pred (animationFrames s)) (inFlight s) s).
Proof.
  intros Hq. split.
  - intros Hrun. split; [|split].
    + simpl. destruct (animationFrames s) as [|n] eqn:En; [lia|].
      unfold detectionLoop. simpl. rewrite Hrun. simpl.
      match goal with |- context [if ?c then _ else _] => destruct c end;
        reflexivity.
    + unfold run. simpl. unfold visibilitychange. simpl. rewrite Hrun.
      reflexivity.
    + unfold run. simpl. unfold visibilitychange. simpl. rewrite Hrun.
      reflexivity.
  - intros Hrun. simpl. destruct (animationFrames s) as [|n] eqn:En; [lia|].
    unfold detectionLoop. simpl. rewrite Hrun. reflexivity.
Qed.

Lemma frame_callbacks_witness :
  animationFrames (step oneInFlight (AnimationFrame 1016))
  = animationFrames oneInFlight
  /\ step (stopDetection oneInFlight) (AnimationFrame 1016)
     = set_counters (pred (animationFrames oneInFlight)) (inFlight oneInFlight)
                    (stopDetection oneInFlight).
Proof.
  split.
  - apply (frame_callbacks oneInFlight 1016); [vm_compute; lia | reflexivity].
  - apply (frame_callbacks (stopDetection oneInFlight) 1016);
      [vm_compute; lia | reflexivity].
Defined.

(** X23. In every state a session can reach, each record of
    [previousDetections] has a non-empty id that begins with the record's
    class number and an underscore; so two records with the same id have the
    same class. *)
Theorem session_ids_carry_class (kw : string) (trace : list Event) :
  let prev := previousDetections (run (initial kw) trace) in
  Forall (fun r => Tracker.prev_id r <> ""%string
                   /\ Tracker.HasClassPrefix (Tracker.prev_class r)
                                             (Tracker.prev_id r)) prev
  /\ (forall r1 r2,
         In r1 prev -> In r2 prev ->
         Tracker.prev_id r1 = Tracker.prev_id r2 ->
         Tracker.prev_class r1 = Tracker.prev_class r2).
Proof.
  intros prev.
  pose proof (TrackerFacts.Reachable_WellFormed prev
                (PipelineFacts.run_Reachable kw trace)) as Hwf.
  unfold Tracker.WellFormed in Hwf. rewrite Forall_forall in Hwf. split.
  - apply Forall_forall. intros r Hr. split; [|apply Hwf, Hr].
    destruct (Hwf r Hr) as [rest Hrest]. rewrite Hrest.
    destruct (JS.String_of_Z (Tracker.prev_class r)); discriminate.
  - intros r1 r2 H1 H2 Heq.
    apply (TrackerFacts.HasClassPrefix_inj _ _ (Tracker.prev_id r1)).
    + apply Hwf, H1.
    + rewrite Heq. apply Hwf, H2.
Qed.

End SessionFacts.

(** ** Box elements: colours, updates and the table of boxes *)

Module UiFacts.
Import Scheduler Geometry JS Tracker Ui.

(** *** Colours *)

Lemma hexDigit_range (c : ascii) (v : Z) :
  hexDigit c = Some v -> (0 <= v <= 15)%Z.
Proof.
  destruct c as [[] [] [] [] [] [] [] []]; vm_compute; intros H;
    try discriminate H; injection H as <-; split; discriminate.
Qed.

Lemma hexDigit_lower (c : ascii) : hexDigit (lower_ascii c) = hexDigit c.
Proof. destruct c as [[] [] [] [] [] [] [] []]; vm_compute; reflexivity. Qed.

Lemma parseHexPair_range (x y : ascii) (v : Z) :
  parseHexPair x y = Some v -> (0 <= v <= 255)%Z.
Proof.
  unfold parseHexPair.
  destruct (hexDigit x) as [a|] eqn:Ea; [|discriminate].
  destruct (hexDigit y) as [b|] eqn:Eb; [|discriminate].
  apply hexDigit_range in Ea. apply hexDigit_range in Eb.
  intros H. assert (Hv : v = (16 * a + b)%Z) by congruence. lia.
Qed.

Lemma sixDigits_range (s : string) (r g b : Z) :
  sixDigits s = Some (r, g, b) ->
  (0 <= r <= 255)%Z /\ (0 <= g <= 255)%Z /\ (0 <= b <= 255)%Z.
Proof.
  destruct s as [|r1 [|r2 [|g1 [|g2 [|b1 [|b2 [|]]]]]]];
    try (simpl; discriminate).
  simpl.
  destruct (parseHexPair r1 r2) as [r'|] eqn:Er; [|discriminate].
  destruct (parseHexPair g1 g2) as [g'|] eqn:Eg; [|discriminate].
  destruct (parseHexPair b1 b2) as [b'|] eqn:Eb; [|discriminate].
  intros H. assert (Hr : r' = r /\ g' = g /\ b' = b)
    by (repeat split; congruence).
  destruct Hr as (-> & -> & ->).
  split; [|split]; eapply parseHexPair_range; eassumption.
Qed.

Lemma matchHex_range (hex : string) (r g b : Z) :
  matchHex hex = Some (r, g, b) ->
  (0 <= r <= 255)%Z /\ (0 <= g <= 255)%Z /\ (0 <= b <= 255)%Z.
Proof.
  unfold matchHex. destruct hex as [|c rest]; [discriminate|].
  destruct c as [[] [] [] [] [] [] [] []]; apply sixDigits_range.
Qed.

Lemma sixDigits_lower (s : string) : sixDigits (toLowerCase s) = sixDigits s.
Proof.
  destruct s as [|r1 [|r2 [|g1 [|g2 [|b1 [|b2 [|]]]]]]]; try reflexivity.
  simpl. unfold parseHexPair. rewrite !hexDigit_lower. reflexivity.
Qed.

Lemma matchHex_lower (hex : string) : matchHex (toLowerCase hex) = matchHex hex.
Proof.
  destruct hex as [|c rest]; [reflexivity|].
  destruct c as [[] [] [] [] [] [] [] []];
    first [ apply (sixDigits_lower (String _ rest)) | apply sixDigits_lower ].
Qed.


Lemma colors_match :
  forallb (fun c => match matchHex c with Some _ => true | None => false end)
          ("#00FF00"%string :: colors) = true.
Proof. vm_compute. reflexivity. Qed.

Lemma colorOf_cases (d : Detection) :
  (0 <= class d)%Z -> colorOf d = "#00FF00"%string \/ In (colorOf d) colors.
Proof.
  intros Hc. unfold colorOf.
  destruct (match isKeywordMatch d with Some v => truthy v | None => false end);
    [left; reflexivity|].
  change (Z.of_nat (List.length colors)) with 20%Z.
  assert (Hr : (0 <= Z.rem (class d) 20 < 20)%Z).
  { rewrite Z.rem_mod_nonneg by lia. apply Z.mod_pos_bound. lia. }
  destruct (Z.rem (class d) 20 <? 0)%Z eqn:E; [apply Z.ltb_lt in E; lia|].
  right. apply nth_In. change (List.length colors) with 20%nat. lia.
Qed.

Lemma colorOf_matches (d : Detection) :
  (0 <= class d)%Z -> exists r g b, matchHex (colorOf d) = Some (r, g, b).
Proof.
  intros Hc.
  assert (Hin : In (colorOf d) ("#00FF00"%string :: colors)).
  { destruct (colorOf_cases d Hc) as [Hg|Hp]; [left; auto | right; exact Hp]. }
  pose proof colors_match as H. rewrite forallb_forall in H.
  specialize (H _ Hin). destruct (matchHex (colorOf d)) as [[[r g] b]|]; [|discriminate].
  exists r, g, b. reflexivity.
Qed.

Lemma Qabs_diag (a : Q) : Qabs (a - a) <= 1.
Proof. apply Qabs_Qle_condition. lra. Qed.

Lemma createBoxElement_spec (d : Detection) (sb : ScreenBox) :
  screenBox d = Some sb -> (0 <= class d)%Z ->
  exists el r g b,
    createBoxElement d = Some el
    /\ el_left el = sx1 sb /\ el_top el = sy1 sb
    /\ el_width el = width sb /\ el_height el = height sb
    /\ el_accuracy el = Math_round (score d * 100)
    /\ el_border el = ("2px solid " ++ colorOf d)%string
    /\ matchHex (colorOf d) = Some (r, g, b)
    /\ el_background el = rgbaText r g b "0.2"
    /\ (In (colorOf d) colors \/ colorOf d = "#00FF00"%string)
    /\ (TrackerRuns.flagged d = true -> colorOf d = "#00FF00"%string).
Proof.
  intros Hsb Hc. destruct (colorOf_matches d Hc) as (r & g & b & Hm).
  unfold createBoxElement. rewrite Hsb.
  eexists. exists r, g, b. split; [reflexivity|]. cbn [el_left el_top el_width
    el_height el_accuracy el_border el_background].
  do 6 (split; [reflexivity|]).
  split; [exact Hm|].
  split; [unfold hexToRgba; rewrite Hm; reflexivity|].
  split.
  - destruct (colorOf_cases d Hc) as [Hg|Hp]; [right; exact Hg | left; exact Hp].
  - unfold TrackerRuns.flagged, colorOf. intros ->. reflexivity.
Qed.

(** X25. For a detection with a screen box and a non-negative class,
    [createBoxElement] makes an element exactly at the screen box, showing
    the rounded percentage of the score, bordered in green when the detection
    is a keyword match and in a palette colour otherwise; the fill is that
    same colour at opacity 0.2, never the red that [hexToRgba] falls back
    to for texts it cannot read. *)
Theorem createBoxElement_colours (d : Detection) (sb : ScreenBox) :
  screenBox d = Some sb -> (0 <= class d)%Z ->
  exists el r g b,
    createBoxElement d = Some el
    /\ el_left el = sx1 sb /\ el_top el = sy1 sb
    /\ el_width el = width sb /\ el_height el = height sb
    /\ el_accuracy el = Math_round (score d * 100)
    /\ el_border el = ("2px solid " ++ colorOf d)%string
    /\ matchHex (colorOf d) = Some (r, g, b)
    /\ el_background el = rgbaText r g b "0.2"
    /\ (In (colorOf d) colors \/ colorOf d = "#00FF00"%string)
    /\ (TrackerRuns.flagged d = true -> colorOf d = "#00FF00"%string).
Proof. exact (createBoxElement_spec d sb). Qed.

Lemma createBoxElement_colours_witness :
  let d := assign (mkDisplay "car" 1 1 (clockFrom 1700000000123))
                  (paddingInfo 720 1280) [] 0
                  (newDetection (mkBox 100 200 180 260) (82 # 100) 2 "car") in
  exists el r g b,
    createBoxElement d = Some el
    /\ matchHex (colorOf d) = Some (r, g, b)
    /\ el_background el = rgbaText r g b "0.2"
    /\ colorOf d = "#00FF00"%string.
Proof.
  intros d.
  destruct (createBoxElement_colours d
              (toScreenBox (paddingInfo 720 1280) 1 1 (mkBox 100 200 180 260))
              eq_refl) as (el & r & g & b & H1 & _ & _ & _ & _ & _ & _ & H8 & H9 & _ & H11).
  - simpl. lia.
  - exists el, r, g, b. split; [exact H1|]. split; [exact H8|].
    split; [exact H9|]. apply H11. reflexivity.
Defined.

(** *** Updating an element *)

Lemma Qgtb_false (a b : Q) : Qgtb a b = false <-> a <= b.
Proof. unfold Qgtb. apply SuppressionFacts.Qltb_false. Qed.

Lemma Qgtb_diag (a : Q) : Qgtb (Qabs (a - a)) 1 = false.
Proof. apply Qgtb_false, Qabs_diag. Qed.

Lemma updateExistingBoxElement_spec (el : BoxElement) (d : Detection)
        (sb : ScreenBox) :
  screenBox d = Some sb ->
  exists el',
    updateExistingBoxElement el d = Some el'
    /\ Shows el' d
    /\ (~ (Qabs (el_left el - sx1 sb) <= 1 /\ Qabs (el_top el - sy1 sb) <= 1
           /\ Qabs (el_width el - width sb) <= 1
           /\ Qabs (el_height el - height sb) <= 1) ->
        el_left el' = sx1 sb /\ el_top el' = sy1 sb
        /\ el_width el' = width sb /\ el_height el' = height sb)
    /\ el_border el' = el_border el
    /\ el_background el' = el_background el
    /\ el_className el' = el_className el
    /\ updateExistingBoxElement el' d = Some el'.
Proof.
  intros Hsb. unfold updateExistingBoxElement, Shows. rewrite Hsb.
  eexists. split; [reflexivity|].
  cbn [el_left el_top el_width el_height el_accuracy el_border el_background
       el_className].
  set (newScore := Math_round (score d * 100)).
  assert (Hacc : (if (el_accuracy el =? newScore)%Z then el_accuracy el else newScore)
                 = newScore).
  { destruct (el_accuracy el =? newScore)%Z eqn:E; [apply Z.eqb_eq, E | reflexivity]. }
  rewrite Hacc, Z.eqb_refl.
  destruct (Qgtb (Qabs (el_left el - sx1 sb)) 1) eqn:E1;
    destruct (Qgtb (Qabs (el_top el - sy1 sb)) 1) eqn:E2;
    destruct (Qgtb (Qabs (el_width el - width sb)) 1) eqn:E3;
    destruct (Qgtb (Qabs (el_height el - height sb)) 1) eqn:E4;
    cbn [orb]; rewrite ?Qgtb_diag, ?E1, ?E2, ?E3, ?E4; cbn [orb];
    try apply Qgtb_false in E1; try apply Qgtb_false in E2;
    try apply Qgtb_false in E3; try apply Qgtb_false in E4;
    (split; [repeat split; first [apply Qabs_diag | assumption] |]);
    (split; [intros Hn; first [tauto | repeat split] |]);
    repeat split.
Qed.

(** X26. Updating an element with a detection that has a screen box leaves
    it within one unit of that box in left, top, width and height (exactly
    on it when one of the four was off by more than one), showing the rounded
    percentage of the score; colours and class text are not touched, and a
    second update with the same detection changes nothing. *)
Theorem updateExistingBoxElement_shows (el : BoxElement) (d : Detection)
        (sb : ScreenBox) :
  screenBox d = Some sb ->
  exists el',
    updateExistingBoxElement el d = Some el'
    /\ Shows el' d
    /\ (~ (Qabs (el_left el - sx1 sb) <= 1 /\ Qabs (el_top el - sy1 sb) <= 1
           /\ Qabs (el_width el - width sb) <= 1
           /\ Qabs (el_height el - height sb) <= 1) ->
        el_left el' = sx1 sb /\ el_top el' = sy1 sb
        /\ el_width el' = width sb /\ el_height el' = height sb)
    /\ el_border el' = el_border el
    /\ el_background el' = el_background el
    /\ el_className el' = el_className el
    /\ updateExistingBoxElement el' d = Some el'.
Proof. exact (updateExistingBoxElement_spec el d sb). Qed.

Lemma updateExistingBoxElement_shows_witness :
  let d := assign (mkDisplay "car" 1 1 (clockFrom 1700000000123))
                  (paddingInfo 720 1280) [] 0
                  (newDetection (mkBox 100 200 180 260) (82 # 100) 2 "car") in
  let el := mkBoxElement 0 0 10 10 "2px solid #00FF00"
                         "rgba(0, 255, 0, 0.2)" "car - " 50 in
  exists el', updateExistingBoxElement el d = Some el' /\ Shows el' d.
Proof.
  intros d el.
  destruct (updateExistingBoxElement_shows el d
              (toScreenBox (paddingInfo 720 1280) 1 1 (mkBox 100 200 180 260))
              eq_refl) as (el' & H1 & H2 & _).
  exists el'. split; assumption.
Defined.

(** *** The table of boxes *)

Lemma keys_setKey (i k : string) (el : BoxElement) (t : BoxTable) :
  In k (keys (setKey i el t)) <-> k = i \/ In k (keys t).
Proof.
  induction t as [|[k0 e0] t IH]; simpl.
  - intuition.
  - destruct (k0 =? i)%string eqn:E; simpl.
    + apply String.eqb_eq in E. subst. intuition.
    + unfold keys in IH. rewrite IH. intuition.
Qed.

Lemma NoDup_setKey (i : string) (el : BoxElement) (t : BoxTable) :
  NoDup (keys t) -> NoDup (keys (setKey i el t)).
Proof.
  induction t as [|[k0 e0] t IH]; simpl; intros H.
  - repeat constructor. intros [].
  - inversion H as [|? ? Hn Hd]; subst.
    destruct (k0 =? i)%string eqn:E; simpl.
    + constructor; assumption.
    + constructor; [|apply IH, Hd].
      intros C. apply keys_setKey in C. destruct C as [->|C]; [|contradiction].
      rewrite String.eqb_refl in E. discriminate.
Qed.

Lemma lookup_setKey_same (i : string) (el : BoxElement) (t : BoxTable) :
  lookup i (setKey i el t) = Some el.
Proof.
  induction t as [|[k0 e0] t IH]; simpl.
  - rewrite String.eqb_refl. reflexivity.
  - destruct (k0 =? i)%string eqn:E; simpl; rewrite E; [reflexivity|exact IH].
Qed.

Lemma lookup_setKey_other (i k : string) (el : BoxElement) (t : BoxTable) :
  k <> i -> lookup k (setKey i el t) = lookup k t.
Proof.
  intros Hk. induction t as [|[k0 e0] t IH]; simpl.
  - destruct (i =? k)%string eqn:E; [|reflexivity].
    apply String.eqb_eq in E. congruence.
  - destruct (k0 =? i)%string eqn:E; simpl.
    + apply String.eqb_eq in E. subst k0.
      destruct (i =? k)%string eqn:E'; [|reflexivity].
      apply String.eqb_eq in E'. congruence.
    + rewrite IH. reflexivity.
Qed.

Lemma keys_filter (f : string * BoxElement -> bool) (t : BoxTable) (k : string) :
  In k (keys (filter f t)) -> In k (keys t).
Proof.
  unfold keys. rewrite !in_map_iff. intros [kv [Hk Hin]].
  apply filter_In in Hin. exists kv. tauto.
Qed.

Lemma NoDup_filter_keys (f : string * BoxElement -> bool) (t : BoxTable) :
  NoDup (keys t) -> NoDup (keys (filter f t)).
Proof.
  induction t as [|[k0 e0] t IH]; simpl; intros H; [constructor|].
  inversion H as [|? ? Hn Hd]; subst.
  destruct (f (k0, e0)); simpl; [|apply IH, Hd].
  constructor; [|apply IH, Hd]. intros C. apply Hn. apply (keys_filter f t k0 C).
Qed.

Lemma keys_deleteKey (i k : string) (t : BoxTable) :
  In k (keys (deleteKey i t)) -> k <> i /\ In k (keys t).
Proof.
  unfold deleteKey, keys. rewrite !in_map_iff. intros [kv [Hk Hin]].
  apply filter_In in Hin. destruct Hin as [Hin Hf]. split.
  - apply negb_true_iff, String.eqb_neq in Hf. congruence.
  - exists kv. tauto.
Qed.

Lemma lookup_deleteKey_other (i k : string) (t : BoxTable) :
  k <> i -> lookup k (deleteKey i t) = lookup k t.
Proof.
  intros Hk. induction t as [|[k0 e0] t IH]; simpl; [reflexivity|].
  destruct (k0 =? i)%string eqn:E; simpl.
  - apply String.eqb_eq in E. subst k0.
    destruct (i =? k)%string eqn:E'; [|exact IH].
    apply String.eqb_eq in E'. congruence.
  - rewrite IH. reflexivity.
Qed.

Lemma keys_removeStale (processedIds : list string) (t : BoxTable) (k : string) :
  In k (keys (removeStale processedIds t)) -> In k processedIds.
Proof.
  unfold removeStale, keys. rewrite in_map_iff. intros [kv [Hk Hin]].
  apply filter_In in Hin. destruct Hin as [_ Hf].
  apply existsb_exists in Hf. destruct Hf as [q [Hq Heq]].
  apply String.eqb_eq in Heq. congruence.
Qed.

(** One round of the third loop on a ready detection: it does not throw, the
    key of the detection is in the table afterwards with an element that
    shows it, every other key is as before. *)
Lemma renderOne_ready (prev : list TrackRecord) (t : BoxTable) (d : Detection)
      (i : string) :
  id d = Some i -> i <> ""%string -> (exists sb, screenBox d = Some sb) ->
  (0 <= class d)%Z ->
  exists t' el,
    renderOne prev t d = Some t'
    /\ lookup i t' = Some el /\ Shows el d
    /\ (forall k, In k (keys t') <-> k = i \/ In k (keys t))
    /\ (forall k, k <> i -> lookup k t' = lookup k t)
    /\ (NoDup (keys t) -> NoDup (keys t')).
Proof.
  intros Hid Hne [sb Hsb] Hc. unfold renderOne. rewrite Hid.
  rewrite (proj2 (KeywordFacts.truthy_string i) Hne). cbn [negb].
  destruct (createBoxElement_spec d sb Hsb Hc)
    as (elc & _ & _ & _ & Hcreate & Hl & Ht & Hw & Hh & Ha & _).
  assert (Hshow : Shows elc d).
  { unfold Shows. rewrite Hsb, Hl, Ht, Hw, Hh, Ha.
    repeat split; apply Qabs_Qle_condition; lra. }
  set (sameClass := match find (fun p => (prev_id p =? i)%string) prev with
                    | Some p => (prev_class p =? class d)%Z
                    | None => false
                    end).
  destruct sameClass; cbn [negb].
  - destruct (lookup i t) as [old|] eqn:El.
    + destruct (updateExistingBoxElement_spec old d sb Hsb)
        as (elu & Hu & Hs & _).
      rewrite Hu. exists (setKey i elu t), elu.
      split; [reflexivity|]. split; [apply lookup_setKey_same|].
      split; [exact Hs|]. split; [intros k; apply keys_setKey|].
      split; [intros k Hk; apply lookup_setKey_other, Hk | apply NoDup_setKey].
    + rewrite Hcreate. exists (setKey i elc t), elc.
      split; [reflexivity|]. split; [apply lookup_setKey_same|].
      split; [exact Hshow|]. split; [intros k; apply keys_setKey|].
      split; [intros k Hk; apply lookup_setKey_other, Hk | apply NoDup_setKey].
  - rewrite Hcreate.
    destruct (lookup i t) as [old|] eqn:El.
    + exists (setKey i elc (deleteKey i t)), elc.
      split; [reflexivity|]. split; [apply lookup_setKey_same|].
      split; [exact Hshow|]. split; [|split].
      * intros k. rewrite keys_setKey. split; [intros [->|H]; auto|].
        -- right. apply keys_deleteKey in H. tauto.
        -- intros [->|H]; [auto|].
           destruct (String.eqb_spec k i) as [->|Hk]; [auto|]. right.
           unfold deleteKey, keys in *. rewrite in_map_iff in *.
           destruct H as [kv [Hkv Hin]]. exists kv. split; [exact Hkv|].
           apply filter_In. split; [exact Hin|].
           apply negb_true_iff, String.eqb_neq. congruence.
      * intros k Hk. rewrite lookup_setKey_other by exact Hk.
        apply lookup_deleteKey_other, Hk.
      * intros Hnd. apply NoDup_setKey. apply NoDup_filter_keys, Hnd.
    + exists (setKey i elc t), elc.
      split; [reflexivity|]. split; [apply lookup_setKey_same|].
      split; [exact Hshow|]. split; [intros k; apply keys_setKey|].
      split; [intros k Hk; apply lookup_setKey_other, Hk | apply NoDup_setKey].
Qed.

Lemma renderAll_ready (prev : list TrackRecord) (ds : list Detection) (t : BoxTable) :
  ReadyList ds ->
  exists t',
    renderAll prev t ds = Some t'
    /\ (forall k, In k (keys t') <-> In k (map idOf ds) \/ In k (keys t))
    /\ (forall k, ~ In k (map idOf ds) -> lookup k t' = lookup k t)
    /\ (NoDup (keys t) -> NoDup (keys t'))
    /\ (NoDup (map idOf ds) ->
        Forall (fun d => exists el, lookup (idOf d) t' = Some el /\ Shows el d) ds).
Proof.
  revert t; induction ds as [|d ds IH]; intros t Hr.
  - exists t. simpl. repeat split; try tauto. constructor.
  - inversion Hr as [|? ? Hd Hds]; subst.
    destruct Hd as ([i [Hid Hne]] & Hsb & Hc).
    destruct (renderOne_ready prev t d i Hid Hne Hsb Hc)
      as (t1 & el & H1 & Hl & Hs & Hk & Ho & Hn).
    destruct (IH t1 Hds) as (t' & H2 & Hk' & Ho' & Hn' & Hshow).
    assert (Ei : idOf d = i) by (unfold idOf; rewrite Hid; reflexivity).
    exists t'. cbn [renderAll map]. rewrite H1, Ei.
    split; [exact H2|]. split; [|split; [|split]].
    + intros k. rewrite Hk', Hk. simpl. intuition.
    + intros k Hnk. simpl in Hnk. rewrite Ho' by tauto.
      apply Ho. intros ->. tauto.
    + intros Hnd. apply Hn', Hn, Hnd.
    + intros Hnd. apply NoDup_cons_iff in Hnd. destruct Hnd as [Hni Hnd'].
      constructor; [|apply Hshow, Hnd'].
      exists el. rewrite Ei. rewrite Ho' by exact Hni. auto.
Qed.

(** *** The table after a cycle *)

Lemma HasClassPrefix_nonempty (c : Z) (i : string) :
  HasClassPrefix c i -> i <> ""%string.
Proof.
  intros [rest ->]. destruct (String_of_Z c); discriminate.
Qed.

Lemma assign_ready (e : Display) (p : PaddingInfo) (prev : list TrackRecord)
      (raw : list (Box * Q * Z * string)) :
  WellFormed prev ->
  Forall (fun '(_, _, c, _) => (0 <= c)%Z) raw ->
  ReadyList (mapi (assign e p prev)
                  (map (fun '(b, s, c, n) => newDetection b s c n) raw)).
Proof.
  intros Hwf Hc. unfold ReadyList, mapi. apply TrackerFacts.mapi_from_Forall.
  intros j d Hd. apply in_map_iff in Hd. destruct Hd as [[[[b s] c] n] [<- Hin]].
  rewrite Forall_forall in Hc. specialize (Hc _ Hin). simpl in Hc.
  split; [|split].
  - eexists. split; [reflexivity|].
    apply (HasClassPrefix_nonempty c), TrackerFacts.assignedId_prefix, Hwf.
  - eexists. reflexivity.
  - exact Hc.
Qed.

Lemma updateBoxElements_spec (e : Display) (p : PaddingInfo)
      (prev : list TrackRecord) (raw : list (Box * Q * Z * string)) (t : BoxTable) :
  Reachable prev ->
  Forall (fun '(_, _, c, _) => (0 <= c)%Z) raw ->
  let dets := map (fun '(b, s, c, n) => newDetection b s c n) raw in
  let out := detections (fst (updateDetectionBoxes e dets p prev)) in
  exists t',
    updateBoxElements e dets p prev t = Some t'
    /\ (forall k, In k (keys t') <-> In k (map idOf out))
    /\ (NoDup (keys t) -> NoDup (keys t'))
    /\ (NoDup (map idOf out) ->
        Forall (fun d => exists el, lookup (idOf d) t' = Some el /\ Shows el d) out).
Proof.
  intros Hr Hc dets out.
  pose proof (assign_ready e p prev raw (TrackerFacts.Reachable_WellFormed _ Hr) Hc)
    as Hready. fold dets in Hready.
  assert (Hout : out = mapi (assign e p prev) dets)
    by apply TrackerFacts.updateDetectionBoxes_map.
  unfold updateBoxElements.
  destruct (TrackerFacts.trackLoop_spec e p dets (mkLoopState prev [] 0 []))
    as (_ & Htr & Hpi).
  simpl in Htr, Hpi. rewrite Htr, Hpi. fold (mapi (assign e p prev) dets).
  rewrite <- Hout in *.
  assert (Hids : mapi_from (assignedId e prev) 0 dets = map idOf out).
  { rewrite Hout. unfold mapi. rewrite TrackerFacts.map_mapi_from. reflexivity. }
  rewrite Hids.
  destruct (renderAll_ready prev out (removeStale (map idOf out) t) Hready)
    as (t' & H1 & Hk & _ & Hn & Hs).
  exists t'. split; [exact H1|]. split; [|split].
  - intros k. rewrite Hk. split; [|auto].
    intros [H|H]; [exact H | apply (keys_removeStale (map idOf out) t k H)].
  - intros Hnd. apply Hn. apply NoDup_filter_keys, Hnd.
  - exact Hs.
Qed.

(** X27. After the box loops of a cycle, run from a tracker state a session
    can reach on detections fresh from [processFrame], the table of box
    elements has exactly the ids emitted in this cycle as its keys: boxes of
    ids that are no longer detected are gone, every detection has a box
    under its id, no error is thrown, and keys stay without duplicates. *)
Theorem updateBoxElements_keys (e : Display) (p : PaddingInfo)
        (prev : list TrackRecord) (raw : list (Box * Q * Z * string)) (t : BoxTable) :
  Reachable prev ->
  Forall (fun '(_, _, c, _) => (0 <= c)%Z) raw ->
  let dets := map (fun '(b, s, c, n) => newDetection b s c n) raw in
  exists t',
    updateBoxElements e dets p prev t = Some t'
    /\ (forall k, In k (keys t')
                  <-> In (Some k)
                         (map id (detections (fst (updateDetectionBoxes e dets p prev)))))
    /\ (NoDup (keys t) -> NoDup (keys t')).
Proof.
  intros Hr Hc dets.
  destruct (updateBoxElements_spec e p prev raw t Hr Hc) as (t' & H1 & Hk & Hn & _).
  exists t'. split; [exact H1|]. split; [|exact Hn].
  intros k. rewrite Hk. fold dets.
  destruct (TrackerFacts.updateDetectionBoxes_map e dets p prev) as [-> _].
  unfold mapi. rewrite !TrackerFacts.map_mapi_from. cbn [id idOf assign].
  generalize 0%nat. induction dets as [|d ds IH]; intros j; simpl; [tauto|].
  rewrite IH. split; (intros [H|H]; [left|right; exact H]); congruence.
Qed.

Lemma updateBoxElements_keys_witness :
  let e := mkDisplay "car" 1 1 (clockFrom 1700000000323) in
  let p := paddingInfo 720 1280 in
  let stale := mkBoxElement 0 0 10 10 "2px solid #FF3838"
                            "rgba(255, 56, 56, 0.2)" "person - " 50 in
  let dets := map (fun '(b, s, c, n) => newDetection b s c n)
                  [(mkBox 100 200 180 260, 82 # 100, 2%Z, "car"%string)] in
  exists t',
    updateBoxElements e dets p [] [("0_1_1_1"%string, stale)] = Some t'
    /\ (forall k, In k (keys t')
                  <-> In (Some k)
                         (map id (detections (fst (updateDetectionBoxes e dets p [])))))
    /\ (NoDup (keys [("0_1_1_1"%string, stale)]) -> NoDup (keys t')).
Proof.
  intros e p stale dets.
  apply (updateBoxElements_keys e p []
           [(mkBox 100 200 180 260, 82 # 100, 2%Z, "car"%string)]
           [("0_1_1_1"%string, stale)]).
  - constructor.
  - constructor; [simpl; lia | constructor].
Defined.

(** X28. When the ids emitted in a cycle are pairwise different, after the
    box loops every emitted detection has, under its id, an element that is
    within one unit of the detection's screen box in left, top, width and
    height and shows the rounded percentage of its score. *)
Theorem updateBoxElements_shows (e : Display) (p : PaddingInfo)
        (prev : list TrackRecord) (raw : list (Box * Q * Z * string)) (t : BoxTable) :
  Reachable prev ->
  Forall (fun '(_, _, c, _) => (0 <= c)%Z) raw ->
  let dets := map (fun '(b, s, c, n) => newDetection b s c n) raw in
  let out := detections (fst (updateDetectionBoxes e dets p prev)) in
  NoDup (map id out) ->
  exists t',
    updateBoxElements e dets p prev t = Some t'
    /\ List.length out = List.length dets
    /\ Forall (fun d => exists i el,
                   id d = Some i /\ lookup i t' = Some el /\ Shows el d) out.
Proof.
  intros Hr Hc dets out Hnd.
  destruct (updateBoxElements_spec e p prev raw t Hr Hc) as (t' & H1 & _ & _ & Hs).
  fold dets in H1, Hs. fold out in Hs.
  assert (Hout : out = mapi (assign e p prev) dets)
    by apply TrackerFacts.updateDetectionBoxes_map.
  assert (Hid : map id out = map Some (map idOf out)).
  { rewrite Hout. unfold mapi. rewrite map_map, !TrackerFacts.map_mapi_from.
    reflexivity. }
  exists t'. split; [exact H1|]. split.
  - rewrite Hout. apply TrackerFacts.mapi_from_length.
  - assert (Hnd' : NoDup (map idOf out)).
    { rewrite Hid in Hnd. apply NoDup_map_inv in Hnd. exact Hnd. }
    specialize (Hs Hnd'). rewrite Forall_forall in *. intros d Hd.
    destruct (Hs d Hd) as (el & Hl & Hsh).
    assert (Hd' : exists j d0, d = assign e p prev j d0).
    { rewrite Hout in Hd. unfold mapi in Hd.
      apply TrackerFacts.mapi_from_In in Hd.
      destruct Hd as (j & d0 & _ & ->). eauto. }
    destruct Hd' as (j & d0 & ->).
    exists (assignedId e prev j d0), el. split; [reflexivity|]. auto.
Qed.

(** A car and a person, both new: the ids are made with two readings of the
    clock. *)
Lemma updateBoxElements_shows_witness :
  let e := mkDisplay "car" 1 1 (clockFrom 1700000000323) in
  let p := paddingInfo 720 1280 in
  let dets := map (fun '(b, s, c, n) => newDetection b s c n)
                  [(mkBox 100 200 180 260, 82 # 100, 2%Z, "car"%string);
                   (mkBox 300 200 380 260, 60 # 100, 0%Z, "person"%string)] in
  let out := detections (fst (updateDetectionBoxes e dets p [])) in
  map id out = [Some "2_10000_20000_323"%string; Some "0_30000_20000_324"%string]
  /\ exists t',
      updateBoxElements e dets p [] [] = Some t'
      /\ List.length out = List.length dets
      /\ Forall (fun d => exists i el,
                     id d = Some i /\ lookup i t' = Some el /\ Shows el d) out.
Proof.
  intros e p dets out. split; [reflexivity|].
  apply (updateBoxElements_shows e p []
           [(mkBox 100 200 180 260, 82 # 100, 2%Z, "car"%string);
            (mkBox 300 200 380 260, 60 # 100, 0%Z, "person"%string)] []).
  - constructor.
  - repeat constructor; simpl; lia.
  - vm_compute. repeat constructor; simpl; intuition discriminate.
Defined.

(** *** Which boxes are recreated *)

(** X29. From every tracker state a session can reach, and in every
    iteration: the previous record that the third loop looks up by a
    detection's id, when there is one, always has the detection's class, so
    an existing box is never rebuilt because of a class change; and when
    there is none, the detection matched nothing and carries a fresh id. *)
Theorem lookup_by_id_has_same_class (e : Display) (prev : list TrackRecord)
        (i : nat) (b : Box) (s : Q) (c : Z) (n : string) :
  Reachable prev ->
  let d := newDetection b s c n in
  match find (fun q => (prev_id q =? assignedId e prev i d)%string) prev with
  | Some q => prev_class q = c
  | None => findMatchingDetection d prev = None
            /\ assignedId e prev i d = freshId (Date_now e i) d
  end.
Proof.
  intros Hr d.
  pose proof (TrackerFacts.Reachable_WellFormed prev Hr) as Hwf.
  pose proof (TrackerFacts.assignedId_prefix e prev i b s c n Hwf) as Hpre.
  fold d in Hpre.
  destruct (find (fun q => (prev_id q =? assignedId e prev i d)%string) prev)
    as [q|] eqn:E.
  - apply find_some in E. destruct E as [Hin Heq].
    apply String.eqb_eq in Heq.
    unfold WellFormed in Hwf. rewrite Forall_forall in Hwf.
    apply (TrackerFacts.HasClassPrefix_inj _ _ (prev_id q)); [apply Hwf, Hin|].
    rewrite Heq. exact Hpre.
  - unfold assignedId in *.
    destruct (findMatchingDetection d prev) as [m|] eqn:Em; [|auto].
    exfalso.
    pose proof (TrackerFacts.findMatchingDetection_In d prev m Em) as Hin.
    pose proof (find_none _ _ E m Hin) as Hm. simpl in Hm.
    rewrite String.eqb_refl in Hm. discriminate.
Qed.

Lemma lookup_by_id_has_same_class_witness :
  let e := mkDisplay "car" 1 1 (clockFrom 1700000000323) in
  let prev := snd (updateDetectionBoxes (mkDisplay "car" 1 1 (clockFrom 1700000000123))
                     [newDetection (mkBox 100 200 180 260) (82 # 100) 2 "car"]
                     (paddingInfo 720 1280) []) in
  let d := newDetection (mkBox (1001 # 10) 200 180 260) (80 # 100) 2 "car" in
  match find (fun q => (prev_id q =? assignedId e prev 0 d)%string) prev with
  | Some q => prev_class q = 2%Z
  | None => findMatchingDetection d prev = None
            /\ assignedId e prev 0 d = freshId (Date_now e 0) d
  end.
Proof.
  intros e prev d.
  apply (lookup_by_id_has_same_class e prev 0 (mkBox (1001 # 10) 200 180 260)
           (80 # 100) 2 "car").
  apply (Reachable_cycle (mkDisplay "car" 1 1 (clockFrom 1700000000123))
           (paddingInfo 720 1280)
           [(mkBox 100 200 180 260, 82 # 100, 2%Z, "car"%string)] []).
  constructor.
Defined.

End UiFacts.
